(** * Mineral transport: vehicles, loads, transport operations, warehouse

    A shallow embedding of [ejercicio_1.py] and the verification of its
    specification.

    Numbers.  The identifier of an operation is a Python [int], here
    [Z].  Every other number of the program (tonnes, kilometres, chassis
    resistance, axle count) is compared with another, or combined with
    others by true divisions and float literals into a Python [float]:
    an IEEE 754 binary64 number.  These numbers are modelled by Rocq's
    primitive binary64 floats, with the nans, the infinities and the two
    zeros they have; an [int] argument such as those of [escenario]
    stands for the float it converts to (exactly, up to 2^53).  The
    builtin [sum] adds floats from left to right up to CPython 3.11 and
    with a compensation of the rounding errors from CPython 3.12 on:
    [Py.sum] has both algorithms, and what is proved of the total stock
    says of which it holds.

    Effects.  A method is a function from the state of [self] to an
    outcome and the state of [self] afterwards: an exception leaves the
    assignments made before it in place, as in Python. *)

From Stdlib Require Import ZArith Floats String Ascii List Bool Lia Sorted.
From Stdlib Require Import Permutation DecimalString DecimalPos DecimalZ.
From Stdlib Require Uint63.
Import ListNotations.

#[local] Set Warnings "-inexact-float".
#[local] Open Scope string_scope.

(** ** Python runtime *)

Module Py.

(** The exceptions the program can raise.  [ValueError] carries its
    message; [KeyError] is what a dict subscript raises on a missing key. *)
Inductive exn : Type :=
| ValueError (msg : string)
| ZeroDivisionError
| KeyError (key : string).

Inductive outcome (A : Type) : Type :=
| Return (a : A)
| Raise (e : exn).
Arguments Return {A} a.
Arguments Raise {A} e.

(** A computation over a mutable state [S]. *)
Definition M (S A : Type) : Type := S -> outcome A * S.

Definition ret {S A} (a : A) : M S A := fun s => (Return a, s).
Definition raise {S A} (e : exn) : M S A := fun s => (Raise e, s).
Definition bind {S A B} (c : M S A) (k : A -> M S B) : M S B :=
  fun s => match c s with
           | (Return a, s') => k a s'
           | (Raise e, s') => (Raise e, s')
           end.
Definition get {S} : M S S := fun s => (Return s, s).
Definition put {S} (s' : S) : M S unit := fun _ => (Return tt, s').
Definition modify {S} (f : S -> S) : M S unit := fun s => (Return tt, f s).

(** An expression that may raise, evaluated inside a method. *)
Definition lift {S A} (o : outcome A) : M S A := fun s => (o, s).

(** A statement guarded by [if cond:] with no [else]. *)
Definition when {S} (cond : bool) (c : M S unit) : M S unit :=
  if cond then c else ret tt.

(** Expressions that may raise but touch no state. *)
Definition obind {A B} (o : outcome A) (k : A -> outcome B) : outcome B :=
  match o with
  | Return a => k a
  | Raise e => Raise e
  end.

Declare Scope py_scope.
Delimit Scope py_scope with py.
Notation "x <- c ;; k" := (bind c (fun x => k))
  (at level 61, c at next level, right associativity) : py_scope.
Notation "c ;; k" := (bind c (fun _ => k))
  (at level 61, right associativity) : py_scope.
Notation "'let*' x := o 'in' k" := (obind o (fun x => k))
  (at level 61, x name, o at next level, right associativity) : py_scope.

(** *** Floats *)

#[local] Open Scope float_scope.

(** [a > b] on floats. *)
Definition gtb (a b : float) : bool := b <? a.

(** [a / b]: Python raises on a zero divisor (of either sign), whatever
    the dividend; every other quotient is the IEEE one. *)
Definition truediv (a b : float) : outcome float :=
  if b =? 0 then Raise ZeroDivisionError else Return (a / b).

(** [min(a, b)]: the first argument unless the second is smaller. *)
Definition min (a b : float) : float := if b <? a then b else a.

(** The exact value of a finite non-zero float is [m * 2^e], up to sign;
    [scaled_half_even k m e] is [k * m * 2^e] rounded to an integer, ties
    to even. *)
Definition scaled_half_even (k : Z) (m : positive) (e : Z) : Z :=
  match e with
  | Zneg p =>
      let den := Z.pow_pos 2 p in
      let q := (k * Zpos m / den)%Z in
      let r := (k * Zpos m mod den)%Z in
      match (2 * r ?= den)%Z with
      | Lt => q
      | Gt => (q + 1)%Z
      | Eq => if Z.even q then q else (q + 1)%Z
      end
  | _ => (k * Zpos m * 2 ^ e)%Z
  end.

(** [round(x, 3)] on a float: the decimal with three fractional digits
    closest to the exact value of [x] (ties to even), converted back to
    the closest float.  A nan, an infinity and a zero round to
    themselves.  From 2^43 on, floats are 2^-9 apart or more, so that
    [x], at most 0.0005 away from its rounding, is the float closest to
    it.  Below 2^43, the scaled integer [n] is less than 2^53: [n] and
    [1000] are floats, and their IEEE quotient is the float closest to
    [n / 1000]. *)
Definition round3 (x : float) : float :=
  match Prim2SF x with
  | S754_finite s m e =>
      if 8796093022208 <=? abs x then x
      else
        let n := scaled_half_even 1000 m e in
        let r := of_uint63 (Uint63.of_Z n) / 1000 in
        if s then - r else r
  | _ => x
  end.

(** [sum(xs)] of a list of floats.  The builtin is part of the
    interpreter, and what it computes depends on the interpreter's
    version.  It starts from the int [0]; the first item [x] makes the
    running total the float [0 + x]; an empty list returns the [0] it
    started from.  The remaining items are then added
    - up to CPython 3.11, from left to right: [f_result += x];
    - from CPython 3.12 on, with Neumaier's compensation: beside the
      running total [f_result], a second float [c] collects what each
      addition lost, and [c] is added to the total at the end unless it
      is zero, infinite or a nan. *)
Inductive sum_algorithm : Type :=
| left_to_right   (* CPython <= 3.11 *)
| compensated.    (* CPython >= 3.12 *)

(** One item of the compensated loop:
    [t = f_result + x;
     if (fabs(f_result) >= fabs(x)) c += (f_result - t) + x;
     else c += (x - t) + f_result;
     f_result = t]. *)
Definition neumaier (fc : float * float) (x : float) : float * float :=
  let '(f_result, c) := fc in
  let t := f_result + x in
  (t, if abs x <=? abs f_result
      then c + ((f_result - t) + x)
      else c + ((x - t) + f_result)).

Definition sum (alg : sum_algorithm) (xs : list float) : float :=
  match xs with
  | [] => 0
  | x :: xs' =>
      match alg with
      | left_to_right => fold_left PrimFloat.add xs' (0 + x)
      | compensated =>
          let '(f_result, c) := fold_left neumaier xs' (0 + x, 0) in
          if negb (c =? 0) && is_finite c then f_result + c else f_result
      end
  end.

(** *** Dicts with string keys

    A dict keeps its keys in insertion order, [values()] and hence [sum]
    follow that order: an association list. *)

Definition dict (V : Type) : Type := list (string * V).

(** [k in d] *)
Definition contains {V} (k : string) (d : dict V) : bool :=
  existsb (fun kv => String.eqb (fst kv) k) d.

(** [d[k]] *)
Fixpoint getitem {V} (k : string) (d : dict V) : outcome V :=
  match d with
  | [] => Raise (KeyError k)
  | (k', v) :: d' => if String.eqb k' k then Return v else getitem k d'
  end.

(** [d[k] = v]: an existing key keeps its place, a new one goes last. *)
Fixpoint setitem {V} (k : string) (v : V) (d : dict V) : dict V :=
  match d with
  | [] => [(k, v)]
  | (k', v') :: d' =>
      if String.eqb k' k then (k', v) :: d' else (k', v') :: setitem k v d'
  end.

(** [d.values()] *)
Definition values {V} (d : dict V) : list V := map snd d.

(** [d.get(k)]: the value at [k], [None] for a missing key. *)
Definition lookup {V} (k : string) (d : dict V) : option V :=
  match getitem k d with
  | Return v => Some v
  | Raise _ => None
  end.

End Py.

Import Py.
#[local] Open Scope float_scope.
#[local] Open Scope py_scope.

(** ** Vehiculo and its three subclasses *)

(** The subclass of a vehicle, with the attribute the subclass adds. *)
Inductive ClaseVehiculo : Type :=
| CamionTolva (resistencia_chasis : float)
| VolqueteArticulado (num_ejes : float)
| CamionLigero (tipo_suspension : string).

Record Vehiculo : Type := {
  _id_vehiculo : string;
  _capacidad_tn : float;
  _estado : string;
  clase : ClaseVehiculo
}.

(** The properties [capacidad_tn], [id_vehiculo] and [estado]. *)
Definition capacidad_tn (self : Vehiculo) : float := _capacidad_tn self.
Definition id_vehiculo (self : Vehiculo) : string := _id_vehiculo self.
Definition estado (self : Vehiculo) : string := _estado self.

(** [self._capacidad_tn = valor] and [self._estado = nuevo]. *)
Definition con_capacidad (valor : float) (self : Vehiculo) : Vehiculo :=
  {| _id_vehiculo := _id_vehiculo self; _capacidad_tn := valor;
     _estado := _estado self; clase := clase self |}.
Definition con_estado (nuevo : string) (self : Vehiculo) : Vehiculo :=
  {| _id_vehiculo := _id_vehiculo self; _capacidad_tn := _capacidad_tn self;
     _estado := nuevo; clase := clase self |}.

(** The setter of [capacidad_tn]. *)
Definition set_capacidad_tn (valor : float) : M Vehiculo unit :=
  when (valor <? 0) (raise (ValueError "Capacidad no puede ser negativa")) ;;
  modify (con_capacidad valor).

Definition cambiar_estado (nuevo : string) : M Vehiculo unit :=
  modify (con_estado nuevo).

(** [Vehiculo.__init__]: [_capacidad_tn] is [None] only until the setter
    has run on the argument, so a vehicle that exists has a number for
    capacity; when the setter raises, so does the constructor, and no
    object is returned to the caller. *)
Definition Vehiculo_init (k : ClaseVehiculo) (id_vehiculo : string)
    (capacidad_tn : float) (estado : string) : outcome Vehiculo :=
  if capacidad_tn <? 0 then Raise (ValueError "Capacidad no puede ser negativa")
  else Return {| _id_vehiculo := id_vehiculo; _capacidad_tn := capacidad_tn;
                 _estado := estado; clase := k |}.

(** The constructors of the subclasses call [super().__init__] with the
    default [estado], then store their own attribute. *)
Definition CamionTolva_init (id_vehiculo : string) (capacidad_tn : float)
    (resistencia_chasis : float) : outcome Vehiculo :=
  Vehiculo_init (CamionTolva resistencia_chasis) id_vehiculo capacidad_tn "Disponible".
Definition VolqueteArticulado_init (id_vehiculo : string) (capacidad_tn : float)
    (num_ejes : float) : outcome Vehiculo :=
  Vehiculo_init (VolqueteArticulado num_ejes) id_vehiculo capacidad_tn "Disponible".
Definition CamionLigero_init (id_vehiculo : string) (capacidad_tn : float)
    (tipo_suspension : string) : outcome Vehiculo :=
  Vehiculo_init (CamionLigero tipo_suspension) id_vehiculo capacidad_tn "Disponible".

(** [calcular_rendimiento], dispatched on the subclass.  The operands of
    each expression are evaluated left to right, a division that raises
    ends the call.  (The [0] that replaces a negative yield of a light
    truck is an [int], which [round] returns as it is: the float [0]
    here.) *)
Definition calcular_rendimiento (self : Vehiculo) (distancia peso : float)
    : outcome float :=
  match clase self with
  | CamionTolva resistencia_chasis =>
      let* q := truediv peso (capacidad_tn self) in
      let carga_frac := min q 1 in
      let* inv := truediv 1 (1 + carga_frac) in
      let* pct := truediv resistencia_chasis 100 in
      let rendimiento := inv * distancia * pct in
      Return (round3 rendimiento)
  | VolqueteArticulado num_ejes =>
      let factor_ejes := 1 + (num_ejes - 2) * 0.05 in
      let* q := truediv peso (capacidad_tn self) in
      let carga_frac := min q 1 in
      let rendimiento := distancia * factor_ejes * (1 - 0.2 * carga_frac) in
      Return (round3 rendimiento)
  | CamionLigero _ =>
      let* q := truediv peso (capacidad_tn self) in
      let carga_frac := min q 1 in
      let base := distancia * 0.6 in
      let penalizacion := carga_frac * 0.8 * distancia in
      let rendimiento := base - penalizacion in
      let rendimiento := if rendimiento <? 0 then 0 else rendimiento in
      Return (round3 rendimiento)
  end.

(** ** Operador and its three subclasses *)

(** A vehicle object as the roster of an operator holds it: by reference.
    [Vehiculo] defines no [__eq__], so [in] compares two vehicles by
    identity, not by their attributes. *)
Definition ref : Type := nat.

Inductive ClaseOperador : Type :=
| OperadorCamion
| SupervisorTransporte
| ControladorAlmacen.

Record Operador : Type := {
  _nombre : string;
  _dni : string;
  _licencia : string;
  vehiculos_asociados : list ref;
  clase_operador : ClaseOperador
}.

Definition nombre (self : Operador) : string := _nombre self.

Definition Operador_init (k : ClaseOperador) (nombre dni licencia : string)
    : Operador :=
  {| _nombre := nombre; _dni := dni; _licencia := licencia;
     vehiculos_asociados := []; clase_operador := k |}.

(** [self.vehiculos_asociados.append(vehiculo)] *)
Definition append_vehiculo (vehiculo : ref) (self : Operador) : Operador :=
  {| _nombre := _nombre self; _dni := _dni self; _licencia := _licencia self;
     vehiculos_asociados := vehiculos_asociados self ++ [vehiculo];
     clase_operador := clase_operador self |}.

(** [vehiculo in lista] *)
Definition list_contains (vehiculo : ref) (lista : list ref) : bool :=
  existsb (Nat.eqb vehiculo) lista.

Definition asociar_vehiculo (vehiculo : ref) : M Operador unit :=
  self <- get ;;
  when (negb (list_contains vehiculo (vehiculos_asociados self)))
       (modify (append_vehiculo vehiculo)).

(** [registrar_operacion] prints one line, with the role of the operator
    and the identifier of the operation; it changes neither.  It is
    modelled with the output, below. *)

Definition calcular_bonos (self : Operador) : Z :=
  match clase_operador self with
  | OperadorCamion => 100
  | SupervisorTransporte => 200
  | ControladorAlmacen => 80
  end.

(** ** CargaMineral *)

Record CargaMineral : Type := {
  tipo : string;
  humedad : float;
  _peso : float
}.

Definition peso (self : CargaMineral) : float := _peso self.

Definition con_peso (val : float) (self : CargaMineral) : CargaMineral :=
  {| tipo := tipo self; humedad := humedad self; _peso := val |}.

(** The setter of [peso]. *)
Definition set_peso (val : float) : M CargaMineral unit :=
  when (val <=? 0) (raise (ValueError "Peso inválido")) ;;
  modify (con_peso val).

(** [CargaMineral.__init__]: as for a vehicle, the setter decides. *)
Definition CargaMineral_init (tipo : string) (humedad peso : float)
    : outcome CargaMineral :=
  if peso <=? 0 then Raise (ValueError "Peso inválido")
  else Return {| tipo := tipo; humedad := humedad; _peso := peso |}.

(** ** OperacionTransporte *)

Record OperacionTransporte : Type := {
  id_op : Z;
  operador : Operador;
  vehiculo : Vehiculo;
  carga : CargaMineral;
  distancia : float;
  finalizada : bool
}.

(** The class attribute [contador] as the class statement leaves it. *)
Definition contador_inicial : Z := 1.

(** [OperacionTransporte.__init__]: the state is the class attribute
    [contador]. *)
Definition OperacionTransporte_init (operador : Operador) (vehiculo : Vehiculo)
    (carga : CargaMineral) (distancia : float) : M Z OperacionTransporte :=
  contador <- get ;;
  put (contador + 1)%Z ;;
  ret {| id_op := contador; operador := operador; vehiculo := vehiculo;
         carga := carga; distancia := distancia; finalizada := false |}.

Definition validar_peso : M OperacionTransporte unit :=
  self <- get ;;
  when (gtb (peso (carga self)) (capacidad_tn (vehiculo self)))
       (raise (ValueError "Peso excede la capacidad del vehículo")).

Definition con_finalizada (b : bool) (self : OperacionTransporte)
    : OperacionTransporte :=
  {| id_op := id_op self; operador := operador self; vehiculo := vehiculo self;
     carga := carga self; distancia := distancia self; finalizada := b |}.

Definition finalizar : M OperacionTransporte unit :=
  modify (con_finalizada true).

(** The dict [generar_reporte] returns, by key. *)
Record Reporte : Type := {
  r_operacion : Z;
  r_vehiculo : string;
  r_peso : float;
  r_rendimiento : float
}.

Definition generar_reporte (self : OperacionTransporte) : outcome Reporte :=
  let* rendimiento :=
    calcular_rendimiento (vehiculo self) (distancia self) (peso (carga self)) in
  Return {| r_operacion := id_op self; r_vehiculo := id_vehiculo (vehiculo self);
            r_peso := peso (carga self); r_rendimiento := rendimiento |}.

(** ** AlmacenMineral *)

Record AlmacenMineral : Type := {
  inventario : dict float
}.

Definition AlmacenMineral_init : AlmacenMineral := {| inventario := [] |}.

(** [self.inventario[k] = v] *)
Definition inventario_set (k : string) (v : float) (self : AlmacenMineral)
    : AlmacenMineral :=
  {| inventario := setitem k v (inventario self) |}.

Definition registrar_ingreso (operacion : OperacionTransporte)
    : M AlmacenMineral unit :=
  when (negb (finalizada operacion))
       (raise (ValueError "Solo operaciones finalizadas pueden registrarse")) ;;
  let tipo := tipo (carga operacion) in
  let peso := peso (carga operacion) in
  self <- get ;;
  when (negb (contains tipo (inventario self))) (modify (inventario_set tipo 0)) ;;
  self <- get ;;
  actual <- lift (getitem tipo (inventario self)) ;;
  modify (inventario_set tipo (actual + peso)).

(** [sum(self.inventario.values())], by the [sum] of the interpreter
    that runs the program. *)
Definition calcular_stock_total (alg : sum_algorithm) (self : AlmacenMineral)
    : float :=
  sum alg (values (inventario self)).

(** ** The errors of the program

    The program raises [ValueError] throughout and tells its errors apart
    by the message. *)

(** The validation error of a capacity. *)
Definition capacidad_negativa : exn := ValueError "Capacidad no puede ser negativa".
(** The validation error of a weight. *)
Definition peso_invalido : exn := ValueError "Peso inválido".
(** The capacity error of [validar_peso]. *)
Definition peso_excede : exn := ValueError "Peso excede la capacidad del vehículo".
(** The state error of [registrar_ingreso]. *)
Definition no_finalizada : exn :=
  ValueError "Solo operaciones finalizadas pueden registrarse".

(** ** Sequences of calls *)

(** The arguments of one construction of an [OperacionTransporte]. *)
Definition args_operacion : Type := (Operador * Vehiculo * CargaMineral * float)%type.

(** Operations constructed one after the other. *)
Fixpoint construir (args : list args_operacion) : M Z (list OperacionTransporte) :=
  match args with
  | [] => ret []
  | (operador, vehiculo, carga, distancia) :: resto =>
      op <- OperacionTransporte_init operador vehiculo carga distancia ;;
      ops <- construir resto ;;
      ret (op :: ops)
  end.

(** Vehicles associated with an operator one after the other. *)
Fixpoint asociar_vehiculos (vehiculos : list ref) : M Operador unit :=
  match vehiculos with
  | [] => ret tt
  | vehiculo :: resto => asociar_vehiculo vehiculo ;; asociar_vehiculos resto
  end.

(** Operations registered in a warehouse one after the other. *)
Fixpoint registrar_ingresos (ops : list OperacionTransporte) : M AlmacenMineral unit :=
  match ops with
  | [] => ret tt
  | op :: resto => registrar_ingreso op ;; registrar_ingresos resto
  end.

(** What [inventario[k]] stands for in a sum: its value, [0] when the key
    is absent. *)
Definition stock (k : string) (self : AlmacenMineral) : float :=
  match lookup k (inventario self) with
  | Some v => v
  | None => 0
  end.

(** The keys of the inventory, in insertion order. *)
Definition tipos (self : AlmacenMineral) : list string :=
  map fst (inventario self).

(** The identifiers [c; c + 1; ...; c + n - 1]. *)
Fixpoint ids_desde (c : Z) (n : nat) : list Z :=
  match n with
  | O => []
  | S n' => c :: ids_desde (c + 1) n'
  end.

(** ** The run of [escenario] *)

Module Escenario.

(** The vehicles [CamionTolva("T001", 20, 85)],
    [VolqueteArticulado("V010", 35, 4)] and
    [CamionLigero("L100", 5, "Hidráulica")]. *)
Definition v1 : Vehiculo :=
  {| _id_vehiculo := "T001"; _capacidad_tn := 20; _estado := "Disponible";
     clase := CamionTolva 85 |}.
Definition v2 : Vehiculo :=
  {| _id_vehiculo := "V010"; _capacidad_tn := 35; _estado := "Disponible";
     clase := VolqueteArticulado 4 |}.
Definition v3 : Vehiculo :=
  {| _id_vehiculo := "L100"; _capacidad_tn := 5; _estado := "Disponible";
     clase := CamionLigero "Hidráulica" |}.

(** The references of [v1], [v2] and [v3]. *)
Definition ref_v1 : ref := 1%nat.
Definition ref_v2 : ref := 2%nat.
Definition ref_v3 : ref := 3%nat.

(** [OperadorCamion("Juan", "123", "AII")], as constructed, and after
    [asociar_vehiculo(v1)] and [asociar_vehiculo(v3)]. *)
Definition op1_nuevo : Operador := Operador_init OperadorCamion "Juan" "123" "AII".
Definition op1 : Operador :=
  {| _nombre := "Juan"; _dni := "123"; _licencia := "AII";
     vehiculos_asociados := [ref_v1; ref_v3]; clase_operador := OperadorCamion |}.
Definition op2 : Operador := Operador_init SupervisorTransporte "María" "456" "SUP".
Definition op3 : Operador := Operador_init ControladorAlmacen "Luis" "789" "CTRL".

(** The loads [CargaMineral("Cobre", 2.5, 15)],
    [CargaMineral("Plata", 1.0, 25)] and [CargaMineral("Oro", 0.8, 6)]. *)
Definition carga1 : CargaMineral := {| tipo := "Cobre"; humedad := 2.5; _peso := 15 |}.
Definition carga2 : CargaMineral := {| tipo := "Plata"; humedad := 1.0; _peso := 25 |}.
Definition carga3 : CargaMineral := {| tipo := "Oro"; humedad := 0.8; _peso := 6 |}.

(** The three operations as their constructor returns them. *)
Definition oper1 : OperacionTransporte :=
  {| id_op := 1; operador := op1; vehiculo := v1; carga := carga1;
     distancia := 12; finalizada := false |}.
Definition oper2 : OperacionTransporte :=
  {| id_op := 2; operador := op2; vehiculo := v2; carga := carga2;
     distancia := 40; finalizada := false |}.
Definition oper3 : OperacionTransporte :=
  {| id_op := 3; operador := op1; vehiculo := v3; carga := carga3;
     distancia := 8; finalizada := false |}.

(** The statements of the scenario on one valid operation, after its
    construction: [validar_peso()], then [finalizar()]. *)
Definition validar_y_finalizar : M OperacionTransporte unit :=
  validar_peso ;; finalizar.

(** A load whose weight is a nan: the setter of [peso] compares it with
    [0], and a nan compares false with everything. *)
Definition carga_nan : CargaMineral :=
  {| tipo := "Oro"; humedad := 0.8; _peso := nan |}.

(** The light truck carrying that load. *)
Definition oper_nan : OperacionTransporte :=
  {| id_op := 1; operador := op1; vehiculo := v3; carga := carga_nan;
     distancia := 8; finalizada := false |}.

End Escenario.

(** ** The specification's formulas *)

Module Spec.

(** Load fraction: [min(weight / capacity, 1.0)]. *)
Definition loadFraction (weight capacity : float) : float :=
  min (weight / capacity) 1.

(** Tipper: [(1 / (1 + f)) * distance * (chassisResistance / 100)],
    rounded to 3 decimal places. *)
Definition tipperYield (capacity chassisResistance distance weight : float)
    : float :=
  let f := loadFraction weight capacity in
  round3 ((1 / (1 + f)) * distance * (chassisResistance / 100)).

(** Articulated: [axleFactor = 1 + (axleCount - 2) * 0.05]. *)
Definition axleFactor (axleCount : float) : float :=
  1 + (axleCount - 2) * 0.05.

(** Articulated: [distance * axleFactor * (1 - 0.2 * f)], rounded to 3
    decimal places. *)
Definition articulatedYield (capacity axleCount distance weight : float)
    : float :=
  let f := loadFraction weight capacity in
  round3 (distance * axleFactor axleCount * (1 - 0.2 * f)).

End Spec.

(** The four ways two floats can compare, as [<?], [=?] and [<=?] see
    them. *)
Inductive cmp_cases (x y : float) : Prop :=
| cmp_lt : (x <? y) = true -> (y <? x) = false -> (x =? y) = false ->
           (y =? x) = false -> (x <=? y) = true -> (y <=? x) = false ->
           cmp_cases x y
| cmp_eq : (x <? y) = false -> (y <? x) = false -> (x =? y) = true ->
           (y =? x) = true -> (x <=? y) = true -> (y <=? x) = true ->
           cmp_cases x y
| cmp_gt : (x <? y) = false -> (y <? x) = true -> (x =? y) = false ->
           (y =? x) = false -> (x <=? y) = false -> (y <=? x) = true ->
           cmp_cases x y
| cmp_unordered :
           (x <? y) = false -> (y <? x) = false -> (x =? y) = false ->
           (y =? x) = false -> (x <=? y) = false -> (y <=? x) = false ->
           is_nan x = true \/ is_nan y = true -> cmp_cases x y.

Definition opp_cmp (c : option comparison) : option comparison :=
  match c with
  | Some c => Some (CompOpp c)
  | None => None
  end.

(** ** Classes of floats, by their sign and size *)

(** The mantissa [m] at exponent [e] is a number of at least [2^-1074],
    the least positive float: it has a bit [k] with [k + e >= -1074]. *)
Definition magnitude_ok (m e : Z) : Prop :=
  exists k, (0 <= k /\ 2 ^ k <= m /\ -1074 <= k + e)%Z.

(** Not a negative finite number: a zero, an infinity, a nan or a
    positive finite number. *)
Definition not_negative_finite (x : spec_float) : Prop :=
  match x with
  | S754_finite true _ _ => False
  | _ => True
  end.

(** Zero or above, as [0 <=? x] says. *)
Definition at_least_zero (x : spec_float) : Prop :=
  match x with
  | S754_zero _ | S754_infinity false | S754_finite false _ _ => True
  | _ => False
  end.

(** Above zero, as [0 <? x] says. *)
Definition above_zero (x : spec_float) : Prop :=
  match x with
  | S754_infinity false | S754_finite false _ _ => True
  | _ => False
  end.

(** ** Output

    [print(a, b)] writes the texts of its arguments, a space between
    them and a newline after them, at the end of what has been written;
    the state is the text written so far. *)

(** [str(n)] of an [int]: its decimal digits, after a minus sign when it
    is negative. *)
Definition str_int (n : Z) : string := NilZero.string_of_int (Z.to_int n).

(** The newline that ends a line. *)
Definition newline : string := String "010"%char EmptyString.

Definition print (a b : string) : M string unit :=
  modify (fun salida => (salida ++ a ++ " " ++ b ++ newline)%string).

(** The number of newlines in a text. *)
Fixpoint newlines (s : string) : nat :=
  match s with
  | EmptyString => 0
  | String c s' => (if Ascii.eqb c "010" then 1 else 0) + newlines s'
  end.

(** [registrar_operacion] of the three subclasses of [Operador]. *)
Definition registrar_operacion (self : Operador)
    (operacion : OperacionTransporte) : M string unit :=
  match clase_operador self with
  | OperadorCamion =>
      print "OperadorCamion registró la operación" (str_int (id_op operacion))
  | SupervisorTransporte =>
      print "Supervisor validó la operación" (str_int (id_op operacion))
  | ControladorAlmacen =>
      print "Controlador registró el ingreso de la operación"
            (str_int (id_op operacion))
  end.

(** ** Calls in sequence, by a caller that catches their exceptions

    After a call that raised, the object is as the call left it, and the
    caller goes on with the next call. *)

(** A call of a method of [Vehiculo] that can change the vehicle. *)
Inductive llamada_vehiculo : Type :=
| asignar_capacidad (valor : float)
| llamar_cambiar_estado (nuevo : string).

Definition llamar (l : llamada_vehiculo) : M Vehiculo unit :=
  match l with
  | asignar_capacidad valor => set_capacidad_tn valor
  | llamar_cambiar_estado nuevo => cambiar_estado nuevo
  end.

Fixpoint usar_vehiculo (ls : list llamada_vehiculo) (self : Vehiculo) : Vehiculo :=
  match ls with
  | [] => self
  | l :: resto => usar_vehiculo resto (snd (llamar l self))
  end.

(** Assignments to [peso], one after the other. *)
Fixpoint asignar_pesos (vals : list float) (self : CargaMineral) : CargaMineral :=
  match vals with
  | [] => self
  | val :: resto => asignar_pesos resto (snd (set_peso val self))
  end.

(** Ingestions attempted one after the other. *)
Fixpoint intentar_ingresos (ops : list OperacionTransporte)
    (self : AlmacenMineral) : AlmacenMineral :=
  match ops with
  | [] => self
  | op :: resto => intentar_ingresos resto (snd (registrar_ingreso op self))
  end.

(** The operation with [v] for vehicle: another vehicle, or its own
    after a change. *)
Definition con_vehiculo (v : Vehiculo) (self : OperacionTransporte)
    : OperacionTransporte :=
  {| id_op := id_op self; operador := operador self; vehiculo := v;
     carga := carga self; distancia := distancia self;
     finalizada := finalizada self |}.

(** ** More classes of floats *)

(** The mantissa [m] at exponent [e] is a number of at least [2^K]. *)
Definition magnitude_at_least (K m e : Z) : Prop :=
  exists k, (0 <= k /\ 2 ^ k <= m /\ K <= k + e)%Z.

(** Not below zero, as [x <? 0 = false] says: a zero, [+infinity], a
    positive finite number or a nan. *)
Definition zero_or_above_or_nan (x : spec_float) : Prop :=
  match x with
  | S754_infinity true | S754_finite true _ _ => False
  | _ => True
  end.

(** Accepted as a weight, as [x <=? 0 = false] says: [+infinity], a
    positive finite number or a nan. *)
Definition above_zero_or_nan (x : spec_float) : Prop :=
  match x with
  | S754_nan | S754_infinity false | S754_finite false _ _ => True
  | _ => False
  end.

(** ** Whole numbers

    Weights that are whole numbers of tonnes, as those of [escenario]. *)

(** The float of a whole number [n] ([float(n)], exact below [2^53]). *)
Definition whole (n : Z) : float := of_uint63 (Uint63.of_Z n).

Fixpoint total (ns : list Z) : Z :=
  match ns with
  | [] => 0
  | n :: ns' => n + total ns'
  end%Z.

(** An inventory of whole numbers of tonnes. *)
Definition inventario_entero (pesos : list (string * Z)) : dict float :=
  map (fun kn => (fst kn, whole (snd kn))) pesos.

(** The binary64 number nearest to an integer. *)
Definition int_float (z : Z) : spec_float :=
  binary_normalize prec emax z 0 false.

(** ** The order of binary64 floats *)

Module FloatOrder.

Lemma SFcompare_swap (x y : spec_float) :
  SFcompare y x = opp_cmp (SFcompare x y).
Proof.
  destruct x as [sx|sx| |sx mx ex], y as [sy|sy| |sy my ey]; simpl;
    try reflexivity;
    try (destruct sx; reflexivity); try (destruct sy; reflexivity);
    try (destruct sx, sy; reflexivity).
  destruct sx, sy; simpl; try reflexivity;
    rewrite (Z.compare_antisym ex ey);
    destruct (ex ?= ey)%Z; simpl; try reflexivity.
  - f_equal. rewrite CompOpp_involutive.
    now rewrite (Pos.compare_cont_antisym my mx Eq).
  - f_equal. now rewrite (Pos.compare_cont_antisym mx my Eq).
Qed.

Lemma SFcompare_refl (x : spec_float) :
  x <> S754_nan -> SFcompare x x = Some Eq.
Proof.
  destruct x as [s|s| |s m e]; simpl; intros H; try congruence.
  - now destruct s.
  - rewrite Z.compare_refl, Pos.compare_cont_refl. now destruct s.
Qed.

Lemma SFcompare_None (x y : spec_float) :
  SFcompare x y = None -> x = S754_nan \/ y = S754_nan.
Proof.
  destruct x as [sx|sx| |sx mx ex], y as [sy|sy| |sy my ey]; simpl;
    intros H; try discriminate; auto.
Qed.

Lemma is_nan_spec (x : float) : is_nan x = true <-> Prim2SF x = S754_nan.
Proof.
  unfold is_nan. rewrite FloatAxioms.eqb_spec. unfold SFeqb. split.
  - intros H. destruct (Prim2SF x) eqn:E; try reflexivity;
      rewrite SFcompare_refl in H; discriminate.
  - intros ->. reflexivity.
Qed.

Lemma compare_cases (x y : float) : cmp_cases x y.
Proof.
  pose proof (SFcompare_swap (Prim2SF x) (Prim2SF y)) as Hs.
  destruct (SFcompare (Prim2SF x) (Prim2SF y)) as [[ | | ]|] eqn:E; simpl in Hs.
  - apply cmp_eq; rewrite ?FloatAxioms.ltb_spec, ?FloatAxioms.eqb_spec, ?FloatAxioms.leb_spec;
      unfold SFltb, SFeqb, SFleb; rewrite ?E, ?Hs; reflexivity.
  - apply cmp_lt; rewrite ?FloatAxioms.ltb_spec, ?FloatAxioms.eqb_spec, ?FloatAxioms.leb_spec;
      unfold SFltb, SFeqb, SFleb; rewrite ?E, ?Hs; reflexivity.
  - apply cmp_gt; rewrite ?FloatAxioms.ltb_spec, ?FloatAxioms.eqb_spec, ?FloatAxioms.leb_spec;
      unfold SFltb, SFeqb, SFleb; rewrite ?E, ?Hs; reflexivity.
  - apply cmp_unordered; rewrite ?FloatAxioms.ltb_spec, ?FloatAxioms.eqb_spec, ?FloatAxioms.leb_spec;
      unfold SFltb, SFeqb, SFleb; rewrite ?E, ?Hs; try reflexivity.
    destruct (SFcompare_None _ _ E) as [H|H]; [left|right];
      now apply is_nan_spec.
Qed.

End FloatOrder.

(** ** Rounding and signs of binary64 arithmetic *)

Module FloatArith.

Section Rounding.

#[local] Open Scope Z_scope.

Lemma digits2_pos_size (p : positive) : digits2_pos p = Pos.size p.
Proof. induction p; simpl; congruence. Qed.

Lemma digits2_pos_bounds (p : positive) :
  2 ^ (Zpos (digits2_pos p) - 1) <= Zpos p < 2 ^ Zpos (digits2_pos p).
Proof.
  rewrite digits2_pos_size. split.
  - pose proof (Pos.size_le p) as H.
    assert (H2 : (2 ^ Zpos (Pos.size p) <= 2 * Zpos p)).
    { rewrite <- Pos2Z.inj_pow. change (2 * Zpos p) with (Zpos p~0). exact H. }
    replace (Zpos (Pos.size p)) with (Z.succ (Zpos (Pos.size p) - 1)) in H2 by lia.
    rewrite Z.pow_succ_r in H2 by lia. lia.
  - pose proof (Pos.size_gt p) as H. rewrite <- Pos2Z.inj_pow. exact H.
Qed.

Lemma shr_1_m (r : shr_record) :
  0 <= shr_m r -> shr_m (shr_1 r) = shr_m r / 2.
Proof.
  destruct r as [m b s]. simpl. intros Hm.
  destruct m as [|[p|p|]|p]; simpl; try reflexivity; try lia.
  - rewrite Pos2Z.inj_xI. apply Z.div_unique with (r := 1); lia.
  - rewrite Pos2Z.inj_xO. apply Z.div_unique with (r := 0); lia.
Qed.

Lemma pow2_xI (n : positive) : 2 ^ Zpos n~1 = 2 * (2 ^ Zpos n * 2 ^ Zpos n).
Proof.
  rewrite <- Z.pow_add_r, <- Z.pow_succ_r by lia. f_equal. lia.
Qed.

Lemma pow2_xO (n : positive) : 2 ^ Zpos n~0 = 2 ^ Zpos n * 2 ^ Zpos n.
Proof. rewrite <- Z.pow_add_r by lia. f_equal. lia. Qed.

Lemma iter_shr_1_m (n : positive) (r : shr_record) :
  0 <= shr_m r -> shr_m (iter_pos shr_1 n r) = shr_m r / 2 ^ Zpos n.
Proof.
  revert r. induction n as [n IH|n IH|]; intros r Hr; simpl iter_pos.
  - assert (H1 : 0 <= shr_m (shr_1 r)).
    { rewrite shr_1_m by assumption. apply Z.div_pos; lia. }
    assert (H2 : 0 <= shr_m (iter_pos shr_1 n (shr_1 r))).
    { rewrite IH by assumption. apply Z.div_pos; lia. }
    rewrite IH, IH, shr_1_m by assumption.
    rewrite !Z.div_div by lia. now rewrite pow2_xI, Z.mul_assoc.
  - assert (H2 : 0 <= shr_m (iter_pos shr_1 n r)).
    { rewrite IH by assumption. apply Z.div_pos; lia. }
    rewrite IH, IH by assumption.
    rewrite !Z.div_div by lia. now rewrite pow2_xO.
  - rewrite shr_1_m by assumption. reflexivity.
Qed.

Lemma magnitude_ok_pos (m e : Z) : magnitude_ok m e -> 0 < m.
Proof.
  intros [k [Hk [Hm _]]]. pose proof (Z.pow_pos_nonneg 2 k). lia.
Qed.

Lemma magnitude_ok_le (m m' e : Z) : magnitude_ok m e -> m <= m' -> magnitude_ok m' e.
Proof. intros [k [Hk [Hm He]]] Hle. exists k. repeat split; lia. Qed.

Lemma shr_record_of_loc_m (m : Z) (l : location) :
  shr_m (shr_record_of_loc m l) = m.
Proof. destruct l as [|[ | | ]]; reflexivity. Qed.

Lemma shr_fexp_magnitude (m e : Z) (l : location) :
  magnitude_ok m e ->
  magnitude_ok (shr_m (fst (shr_fexp prec emax m e l)))
               (snd (shr_fexp prec emax m e l)).
Proof.
  intros Hok. pose proof (magnitude_ok_pos _ _ Hok) as Hpos.
  destruct Hok as [k [Hk [Hm He]]].
  destruct m as [|p|p]; try lia.
  unfold shr_fexp, shr. simpl Zdigits2.
  pose proof (digits2_pos_bounds p) as [Hlo Hhi].
  set (d := Zpos (digits2_pos p)) in *.
  assert (Hkd : k < d).
  { apply (Z.pow_lt_mono_r_iff 2); lia. }
  unfold fexp, SpecFloat.emin, prec, emax.
  destruct (Z.max (d + e - 53) (3 - 1024 - 53) - e) as [|n|n] eqn:En; simpl fst; simpl snd.
  - rewrite shr_record_of_loc_m. exists k. repeat split; lia.
  - rewrite iter_shr_1_m by (rewrite shr_record_of_loc_m; lia).
    rewrite shr_record_of_loc_m.
    exists (d - 1 - Zpos n). repeat split; try lia.
    apply Z.div_le_lower_bound; [lia|].
    rewrite <- Z.pow_add_r by lia.
    replace (Zpos n + (d - 1 - Zpos n)) with (d - 1) by lia. exact Hlo.
  - rewrite shr_record_of_loc_m. exists k. repeat split; lia.
Qed.

Lemma round_nearest_even_ge (m : Z) (l : location) : m <= round_nearest_even m l.
Proof.
  destruct l as [|[ | | ]]; simpl; try lia. destruct (Z.even m); lia.
Qed.

Lemma binary_round_aux_not_zero (s s' : bool) (m e : Z) (l : location) :
  magnitude_ok m e -> binary_round_aux prec emax s m e l <> S754_zero s'.
Proof.
  intros Hok. unfold binary_round_aux.
  pose proof (shr_fexp_magnitude m e l Hok) as H1.
  destruct (shr_fexp prec emax m e l) as [r1 e1]. simpl in H1.
  apply magnitude_ok_le with (m' := round_nearest_even (shr_m r1) (loc_of_shr_record r1))
    in H1; [|apply round_nearest_even_ge].
  pose proof (shr_fexp_magnitude _ _ loc_Exact H1) as H2.
  destruct (shr_fexp prec emax _ e1 loc_Exact) as [r2 e2]. simpl in H2.
  apply magnitude_ok_pos in H2.
  destruct (shr_m r2) as [|p|p]; try lia.
  destruct (e2 <=? emax - prec); discriminate.
Qed.

Lemma iter_xO_mul (d m : positive) : Zpos (Pos.iter xO m d) = Zpos m * 2 ^ Zpos d.
Proof.
  induction d as [|d IH] using Pos.peano_ind.
  - simpl. lia.
  - rewrite Pos.iter_succ, Pos2Z.inj_xO, IH, Pos2Z.inj_succ, Z.pow_succ_r by lia. lia.
Qed.

Lemma shl_align_value (m : positive) (e e' : Z) :
  e' <= e ->
  Zpos (fst (shl_align m e e')) = Zpos m * 2 ^ (e - e') /\ snd (shl_align m e e') = e'.
Proof.
  intros Hle. unfold shl_align.
  destruct (e' - e) as [|d|d] eqn:E; cbn [fst snd].
  - replace (e - e') with 0 by lia. rewrite Z.pow_0_r. lia.
  - exfalso. lia.
  - rewrite iter_xO_mul. replace (e - e') with (Zpos d) by lia. lia.
Qed.

Lemma binary_round_not_zero (s s' : bool) (m : positive) (e : Z) :
  magnitude_ok (Zpos m) e -> binary_round prec emax s m e <> S754_zero s'.
Proof.
  intros [k [Hk [Hm He]]]. unfold binary_round.
  set (e' := fexp prec emax (Zpos (digits2_pos m) + e)).
  destruct (Z.le_gt_cases e' e) as [Hle|Hgt].
  - pose proof (shl_align_value m e e' Hle) as [Hv He'].
    destruct (shl_align m e e') as [mz ez]. cbn [fst snd] in Hv, He'. subst ez.
    apply binary_round_aux_not_zero.
    exists (k + (e - e')). rewrite Hv, Z.pow_add_r by lia. repeat split; try lia.
    apply Z.mul_le_mono_nonneg_r; [|lia]. apply Z.pow_nonneg. lia.
  - unfold shl_align. destruct (e' - e) as [|d|d] eqn:E; try lia.
    apply binary_round_aux_not_zero. exists k. repeat split; lia.
Qed.

End Rounding.

Section Signs.

Lemma Prim2SF_zero : Prim2SF 0 = S754_zero false.
Proof. reflexivity. Qed.

Lemma Prim2SF_one : Prim2SF 1 = S754_finite false 4503599627370496 (-52).
Proof. reflexivity. Qed.

Lemma leb_zero_spec (x : float) : (0 <=? x) = true -> at_least_zero (Prim2SF x).
Proof.
  rewrite FloatAxioms.leb_spec, Prim2SF_zero. unfold SFleb.
  destruct (Prim2SF x) as [s|[|]| |[|] m e]; simpl; auto; discriminate.
Qed.

Lemma ltb_zero_spec (x : float) : (0 <? x) = true -> above_zero (Prim2SF x).
Proof.
  rewrite FloatAxioms.ltb_spec, Prim2SF_zero. unfold SFltb.
  destruct (Prim2SF x) as [s|[|]| |[|] m e]; simpl; auto; discriminate.
Qed.

Lemma binary_round_aux_sign (s : bool) (m e : Z) (l : location) :
  s = false -> not_negative_finite (binary_round_aux prec emax s m e l).
Proof.
  intros ->. unfold binary_round_aux.
  destruct (shr_fexp prec emax m e l) as [r1 e1].
  destruct (shr_fexp prec emax _ e1 loc_Exact) as [r2 e2].
  destruct (shr_m r2); cbn; auto.
  match goal with |- context [if ?b then _ else _] => destruct b end; cbn; auto.
Qed.

Lemma SFdiv_not_negative (x y : spec_float) :
  at_least_zero x -> above_zero y -> not_negative_finite (SF64div x y).
Proof.
  destruct x as [sx|[|]| |[|] mx ex], y as [sy|[|]| |[|] my ey]; simpl;
    try contradiction; auto.
  intros _ _.
  destruct (SFdiv_core_binary prec emax (Zpos mx) ex (Zpos my) ey) as [[mz ez] lz].
  now apply binary_round_aux_sign.
Qed.

Lemma SFeqb_zero (x : spec_float) (s : bool) :
  (forall s', x <> S754_zero s') -> SFeqb x (S754_zero s) = false.
Proof.
  intros H. unfold SFeqb. destruct x as [sx|[|]| |[|] m e]; simpl; auto.
  now destruct (H sx).
Qed.

Lemma one_plus_not_zero (q : float) :
  not_negative_finite (Prim2SF q) -> (1 + q =? 0) = false.
Proof.
  intros Hq. rewrite FloatAxioms.eqb_spec, add_spec, Prim2SF_zero, Prim2SF_one.
  apply SFeqb_zero. intros s'.
  destruct (Prim2SF q) as [s|s| |[|] m e]; try discriminate;
    try contradiction.
  unfold SF64add, SFadd, cond_Zopp.
    set (ez := Z.min (-52) e).
    assert (Hez : (ez <= -52)%Z) by (unfold ez; lia).
    pose proof (shl_align_value 4503599627370496 (-52) ez Hez) as [Ha _].
    destruct (shl_align 4503599627370496 (-52) ez) as [a ea].
    destruct (shl_align m e ez) as [b eb]. cbn [fst snd] in *.
    change (Zpos a + Zpos b)%Z with (Zpos (a + b)). unfold binary_normalize.
    apply binary_round_not_zero.
    exists (- ez)%Z. repeat split; try lia.
    rewrite Pos2Z.inj_add, Ha.
    change 4503599627370496%Z with (2 ^ 52)%Z.
    rewrite <- Z.pow_add_r by lia.
    replace (52 + (-52 - ez))%Z with (- ez)%Z by lia. lia.
Qed.

Lemma fraction_denominator (w c : float) :
  (0 <=? w) = true -> (0 <? c) = true ->
  (1 + (if 1 <? w / c then 1 else w / c) =? 0) = false.
Proof.
  intros Hw Hc. destruct (1 <? w / c).
  - reflexivity.
  - apply one_plus_not_zero. rewrite div_spec.
    apply SFdiv_not_negative; [now apply leb_zero_spec|now apply ltb_zero_spec].
Qed.

End Signs.

End FloatArith.

(** ** Whole numbers in binary64

    Rounding sees the value of [m * 2^e] only, not how it is split
    between [m] and [e]; a whole number below [2^53] is a float; hence
    such numbers are added and subtracted without rounding. *)

Module FloatWhole.

Section Rescale.

#[local] Open Scope Z_scope.

Lemma iter_pos_nat {A : Type} (f : A -> A) (p : positive) (x : A) :
  iter_pos f p x = Nat.iter (Pos.to_nat p) f x.
Proof.
  revert x. induction p as [p IH|p IH|]; intros x; simpl iter_pos.
  - rewrite !IH, Pos2Nat.inj_xI.
    replace (2 * Pos.to_nat p)%nat with (Pos.to_nat p + Pos.to_nat p)%nat by lia.
    rewrite Nat.iter_succ_r, Nat.iter_add. reflexivity.
  - rewrite !IH, Pos2Nat.inj_xO.
    replace (2 * Pos.to_nat p)%nat with (Pos.to_nat p + Pos.to_nat p)%nat by lia.
    now rewrite Nat.iter_add.
  - reflexivity.
Qed.

(** Shifting out [j] zero bits leaves the mantissa and an exact
    location. *)
Lemma shr_exact (j : nat) (M : Z) :
  0 <= M ->
  Nat.iter j shr_1 (Build_shr_record (M * 2 ^ Z.of_nat j) false false)
  = Build_shr_record M false false.
Proof.
  revert M. induction j as [|j IH]; intros M HM.
  - simpl. now rewrite Z.mul_1_r.
  - rewrite Nat.iter_succ_r.
    replace (M * 2 ^ Z.of_nat (S j)) with (2 * (M * 2 ^ Z.of_nat j)).
    + pose proof (Z.pow_nonneg 2 (Z.of_nat j) ltac:(lia)) as Hp.
      assert (Hn : 0 <= M * 2 ^ Z.of_nat j) by nia.
      destruct (M * 2 ^ Z.of_nat j) as [|q|q] eqn:E; try lia.
      * simpl shr_1. rewrite <- (IH M HM), E. reflexivity.
      * simpl shr_1. rewrite <- (IH M HM), E. reflexivity.
    + rewrite Nat2Z.inj_succ, Z.pow_succ_r by lia. lia.
Qed.


Lemma shr_rescale (M E j n : Z) :
  0 <= M -> 0 <= j -> 0 <= n ->
  shr (Build_shr_record (M * 2 ^ j) false false) (E - j) (n + j)
  = shr (Build_shr_record M false false) E n.
Proof.
  intros HM Hj Hn. unfold shr.
  destruct j as [|pj|pj]; try lia.
  - rewrite Z.pow_0_r, Z.mul_1_r, Z.add_0_r, Z.sub_0_r. reflexivity.
  - destruct n as [|pn|pn]; try lia.
    + change (0 + Zpos pj) with (Zpos pj). cbv iota beta. rewrite iter_pos_nat.
      rewrite <- (positive_nat_Z pj) at 1. rewrite shr_exact by assumption.
      f_equal. lia.
    + change (Zpos pn + Zpos pj) with (Zpos (pn + pj)). cbv iota beta.
      rewrite !iter_pos_nat, Pos2Nat.inj_add, Nat.iter_add.
      rewrite <- (positive_nat_Z pj) at 1. rewrite shr_exact by assumption.
      f_equal. lia.
Qed.

Lemma digits_unique (p : positive) (d : Z) :
  2 ^ (d - 1) <= Zpos p < 2 ^ d -> Zpos (digits2_pos p) = d.
Proof.
  intros [Hlo Hhi]. pose proof (FloatArith.digits2_pos_bounds p) as [Hlo' Hhi'].
  assert (0 < d).
  { destruct (Z.le_gt_cases d 0) as [H|H]; [|assumption].
    assert (2 ^ d <= 2 ^ 0) by (apply Z.pow_le_mono_r; lia).
    change (2 ^ 0) with 1 in *. lia. }
  assert (d - 1 < Zpos (digits2_pos p)).
  { apply (Z.pow_lt_mono_r_iff 2); lia. }
  assert (Zpos (digits2_pos p) - 1 < d).
  { apply (Z.pow_lt_mono_r_iff 2); lia. }
  lia.
Qed.

Lemma digits_shift (M : positive) (j : Z) :
  0 <= j -> Zdigits2 (Zpos M * 2 ^ j) = Zpos (digits2_pos M) + j.
Proof.
  intros Hj. pose proof (FloatArith.digits2_pos_bounds M) as [Hlo Hhi].
  pose proof (Z.pow_pos_nonneg 2 j ltac:(lia) Hj) as Hp.
  assert (Hlo' : 2 ^ (Zpos (digits2_pos M) + j - 1) <= Zpos M * 2 ^ j).
  { replace (Zpos (digits2_pos M) + j - 1) with (Zpos (digits2_pos M) - 1 + j)
      by lia.
    rewrite Z.pow_add_r by lia.
    apply Z.mul_le_mono_nonneg_r; lia. }
  assert (Hhi' : Zpos M * 2 ^ j < 2 ^ (Zpos (digits2_pos M) + j)).
  { rewrite Z.pow_add_r by lia. apply Z.mul_lt_mono_pos_r; lia. }
  destruct (Zpos M * 2 ^ j) as [|q|q] eqn:E; try lia.
  change (Zdigits2 (Zpos q)) with (Zpos (digits2_pos q)).
  apply digits_unique. split; assumption.
Qed.

Lemma shr_fexp_rescale (M : positive) (E j : Z) :
  0 <= j -> E <= fexp prec emax (Zpos (digits2_pos M) + E) ->
  shr_fexp prec emax (Zpos M * 2 ^ j) (E - j) loc_Exact
  = shr_fexp prec emax (Zpos M) E loc_Exact.
Proof.
  intros Hj HF. unfold shr_fexp. rewrite (digits_shift M j Hj).
  change (Zdigits2 (Zpos M)) with (Zpos (digits2_pos M)).
  replace (Zpos (digits2_pos M) + j + (E - j)) with (Zpos (digits2_pos M) + E)
    by lia.
  set (F := fexp prec emax (Zpos (digits2_pos M) + E)) in *.
  replace (F - (E - j)) with ((F - E) + j) by lia.
  cbv beta iota delta [shr_record_of_loc]. apply shr_rescale; lia.
Qed.

(** Rounding does not depend on the trailing zeros of the mantissa. *)
Lemma binary_round_aux_rescale (s : bool) (M : positive) (E j : Z) :
  0 <= j -> E <= fexp prec emax (Zpos (digits2_pos M) + E) ->
  binary_round_aux prec emax s (Zpos M * 2 ^ j) (E - j) loc_Exact
  = binary_round_aux prec emax s (Zpos M) E loc_Exact.
Proof.
  intros Hj HF. unfold binary_round_aux.
  now rewrite (shr_fexp_rescale M E j Hj HF).
Qed.


Lemma binary_round_rescale (s : bool) (m : positive) (e : Z) (j : positive) :
  binary_round prec emax s (Pos.iter xO m j) (e - Zpos j)
  = binary_round prec emax s m e.
Proof.
  unfold binary_round.
  pose proof (FloatArith.iter_xO_mul j m) as Hm.
  assert (Hd : Zpos (digits2_pos (Pos.iter xO m j)) = Zpos (digits2_pos m) + Zpos j).
  { change (Zpos (digits2_pos (Pos.iter xO m j)))
      with (Zdigits2 (Zpos (Pos.iter xO m j))).
    rewrite Hm. apply digits_shift. lia. }
  rewrite Hd.
  replace (Zpos (digits2_pos m) + Zpos j + (e - Zpos j))
    with (Zpos (digits2_pos m) + e) by lia.
  set (F := fexp prec emax (Zpos (digits2_pos m) + e)).
  destruct (Z.le_gt_cases F e) as [Hle|Hgt].
  - (* the mantissa [m] is shifted left to the exponent [F] *)
    pose proof (FloatArith.shl_align_value m e F Hle) as [Hv He].
    destruct (shl_align m e F) as [mz ez]. cbn [fst snd] in Hv, He. subst ez.
    destruct (Z.le_gt_cases F (e - Zpos j)) as [Hle'|Hgt'].
    + pose proof (FloatArith.shl_align_value (Pos.iter xO m j) (e - Zpos j) F Hle')
        as [Hv' He'].
      destruct (shl_align (Pos.iter xO m j) (e - Zpos j) F) as [mz' ez'].
      cbn [fst snd] in Hv', He'. subst ez'.
      replace mz' with mz; [reflexivity|].
      apply Pos2Z.inj. rewrite Hv, Hv', Hm, <- Z.mul_assoc, <- Z.pow_add_r by lia.
      f_equal. f_equal. lia.
    + unfold shl_align at 1.
      destruct (F - (e - Zpos j)) as [|d|d] eqn:Ed; try lia.
      replace (e - Zpos j) with (F - (Zpos j - (e - F))) by lia.
      replace (Zpos (Pos.iter xO m j)) with (Zpos mz * 2 ^ (Zpos j - (e - F))).
      * apply binary_round_aux_rescale; [lia|].
        assert (Hdz : Zpos (digits2_pos mz) = Zpos (digits2_pos m) + (e - F)).
        { change (Zpos (digits2_pos mz)) with (Zdigits2 (Zpos mz)).
          rewrite Hv. apply digits_shift. lia. }
        rewrite Hdz.
        replace (Zpos (digits2_pos m) + (e - F) + F)
          with (Zpos (digits2_pos m) + e) by lia.
        fold F. lia.
      * rewrite Hv, Hm, <- Z.mul_assoc, <- Z.pow_add_r by lia.
        f_equal. f_equal. lia.
  - (* no shift on either side *)
    unfold shl_align.
    destruct (F - e) as [|d|d] eqn:Ed; try lia.
    destruct (F - (e - Zpos j)) as [|d'|d'] eqn:Ed'; try lia.
    rewrite Hm. apply binary_round_aux_rescale; [lia|]. fold F. lia.
Qed.


Lemma binary_normalize_rescale (z e j : Z) (sz : bool) :
  0 <= j ->
  binary_normalize prec emax (z * 2 ^ j) (e - j) sz
  = binary_normalize prec emax z e sz.
Proof.
  intros Hj. destruct j as [|j|j]; try lia.
  - now rewrite Z.pow_0_r, Z.mul_1_r, Z.sub_0_r.
  - destruct z as [|m|m].
    + reflexivity.
    + rewrite <- FloatArith.iter_xO_mul. apply binary_round_rescale.
    + change (Zneg m) with (- Zpos m). rewrite Z.mul_opp_l.
      rewrite <- FloatArith.iter_xO_mul. apply binary_round_rescale.
Qed.

End Rescale.

Section Whole.

#[local] Open Scope Z_scope.

Lemma binary_round_aux_canonical (s : bool) (m : positive) (e : Z) :
  bounded prec emax m e = true ->
  binary_round_aux prec emax s (Zpos m) e loc_Exact = S754_finite s m e.
Proof.
  unfold bounded, canonical_mantissa. intros H.
  apply andb_true_iff in H as [Hc He]. apply Z.eqb_eq in Hc.
  unfold binary_round_aux, shr_fexp.
  change (Zdigits2 (Zpos m)) with (Zpos (digits2_pos m)).
  rewrite Hc, Z.sub_diag. cbn [shr_record_of_loc shr]. cbv beta iota.
  cbn [shr_m loc_of_shr_record shr_r shr_s round_nearest_even].
  change (Zdigits2 (Zpos m)) with (Zpos (digits2_pos m)).
  rewrite Hc, Z.sub_diag. cbn [shr_record_of_loc shr shr_m]. cbv beta iota.
  now rewrite He.
Qed.

Lemma binary_round_whole (p : positive) :
  Zpos p < 2 ^ 53 ->
  exists m e, (forall s, binary_round prec emax s p 0 = S754_finite s m e) /\
              e <= 0 /\ Zpos m = Zpos p * 2 ^ (- e).
Proof.
  intros Hp. unfold binary_round.
  pose proof (FloatArith.digits2_pos_bounds p) as [Hlo Hhi].
  assert (Hd : Zpos (digits2_pos p) <= 53).
  { assert (Zpos (digits2_pos p) - 1 < 53); [|lia].
    apply (Z.pow_lt_mono_r_iff 2); lia. }
  assert (HF : fexp prec emax (Zpos (digits2_pos p) + 0) = Zpos (digits2_pos p) - 53).
  { unfold fexp, SpecFloat.emin, prec, emax. lia. }
  rewrite HF.
  pose proof (FloatArith.shl_align_value p 0 (Zpos (digits2_pos p) - 53) ltac:(lia))
    as [Hv He].
  destruct (shl_align p 0 (Zpos (digits2_pos p) - 53)) as [mz ez].
  cbn [fst snd] in Hv, He. subst ez.
  exists mz, (Zpos (digits2_pos p) - 53). split; [|split].
  - intros s. apply binary_round_aux_canonical.
    unfold bounded, canonical_mantissa. apply andb_true_iff. split.
    + apply Z.eqb_eq.
      change (Zpos (digits2_pos mz)) with (Zdigits2 (Zpos mz)).
      rewrite Hv, digits_shift by lia.
      unfold fexp, SpecFloat.emin, prec, emax. lia.
    + apply Z.leb_le. unfold prec, emax. lia.
  - lia.
  - rewrite Hv, Z.sub_0_l. reflexivity.
Qed.

Lemma int_float_finite (z : Z) :
  z <> 0 -> Z.abs z < 2 ^ 53 ->
  exists s m e, int_float z = S754_finite s m e /\
                e <= 0 /\ cond_Zopp s (Zpos m) = z * 2 ^ (- e).
Proof.
  intros Hz Hb. unfold int_float. destruct z as [|p|p]; [congruence| |].
  - destruct (binary_round_whole p) as [m [e [H [He Hm]]]]; [lia|].
    exists false, m, e. repeat split; [apply H|assumption|assumption].
  - destruct (binary_round_whole p) as [m [e [H [He Hm]]]]; [lia|].
    exists true, m, e. repeat split; [apply H|assumption|].
    cbn [cond_Zopp binary_normalize]. rewrite Hm.
    change (Zneg p) with (- Zpos p). now rewrite Z.mul_opp_l.
Qed.

Lemma cond_Zopp_mul (s : bool) (m k : Z) :
  cond_Zopp s (m * k) = cond_Zopp s m * k.
Proof. destruct s; cbn [cond_Zopp]; [now rewrite Z.mul_opp_l|reflexivity]. Qed.

Lemma aligned_value (s : bool) (m : positive) (e ez z : Z) :
  ez <= e -> e <= 0 -> cond_Zopp s (Zpos m) = z * 2 ^ (- e) ->
  cond_Zopp s (Zpos (fst (shl_align m e ez))) = z * 2 ^ (- ez).
Proof.
  intros Hle He Hm.
  destruct (FloatArith.shl_align_value m e ez Hle) as [Hv _].
  rewrite Hv, cond_Zopp_mul, Hm, <- Z.mul_assoc, <- Z.pow_add_r by lia.
  f_equal. f_equal. lia.
Qed.

(** Whole numbers below [2^53] are added without rounding. *)
Lemma SFadd_int_float (a b : Z) :
  Z.abs a < 2 ^ 53 -> Z.abs b < 2 ^ 53 ->
  SFadd prec emax (int_float a) (int_float b) = int_float (a + b).
Proof.
  intros Ha Hb.
  destruct (Z.eq_dec a 0) as [->|Hna]; destruct (Z.eq_dec b 0) as [->|Hnb].
  - reflexivity.
  - destruct (int_float_finite b Hnb Hb) as [s [m [e [H _]]]].
    rewrite Z.add_0_l, H. reflexivity.
  - destruct (int_float_finite a Hna Ha) as [s [m [e [H _]]]].
    rewrite Z.add_0_r, H. reflexivity.
  - destruct (int_float_finite a Hna Ha) as [sa [ma [ea [H1 [Hea Hma]]]]].
    destruct (int_float_finite b Hnb Hb) as [sb [mb [eb [H2 [Heb Hmb]]]]].
    rewrite H1, H2. cbn [SFadd]. cbv zeta.
    rewrite (aligned_value sa ma ea (Z.min ea eb) a) by (assumption || lia).
    rewrite (aligned_value sb mb eb (Z.min ea eb) b) by (assumption || lia).
    rewrite <- Z.mul_add_distr_r.
    replace (Z.min ea eb) with (0 - - Z.min ea eb) at 2 by lia.
    apply binary_normalize_rescale. lia.
Qed.

Lemma SFsub_int_float (a b : Z) :
  Z.abs a < 2 ^ 53 -> Z.abs b < 2 ^ 53 ->
  SFsub prec emax (int_float a) (int_float b) = int_float (a - b).
Proof.
  intros Ha Hb.
  destruct (Z.eq_dec a 0) as [->|Hna]; destruct (Z.eq_dec b 0) as [->|Hnb].
  - reflexivity.
  - change (0 - b) with (- b). unfold int_float.
    destruct b as [|p|p]; [congruence| |]; cbn [binary_normalize Z.opp];
      (destruct (binary_round_whole p) as [m [e [H _]]]; [lia|]);
      rewrite !H; reflexivity.
  - destruct (int_float_finite a Hna Ha) as [s [m [e [H _]]]].
    rewrite Z.sub_0_r, H. reflexivity.
  - destruct (int_float_finite a Hna Ha) as [sa [ma [ea [H1 [Hea Hma]]]]].
    destruct (int_float_finite b Hnb Hb) as [sb [mb [eb [H2 [Heb Hmb]]]]].
    rewrite H1, H2. cbn [SFsub]. cbv zeta.
    rewrite (aligned_value sa ma ea (Z.min ea eb) a) by (assumption || lia).
    rewrite (aligned_value sb mb eb (Z.min ea eb) b) by (assumption || lia).
    rewrite <- Z.mul_sub_distr_r.
    replace (Z.min ea eb) with (0 - - Z.min ea eb) at 2 by lia.
    apply binary_normalize_rescale. lia.
Qed.

End Whole.

End FloatWhole.

(** ** Sums of whole numbers *)

Module FloatSum.
Import FloatWhole.

Section Sums.

#[local] Open Scope Z_scope.

Lemma whole_spec (n : Z) :
  0 <= n < 2 ^ 63 -> Prim2SF (whole n) = int_float n.
Proof.
  intros Hn. unfold whole, int_float.
  rewrite FloatAxioms.of_uint63_spec, Uint63.of_Z_spec.
  rewrite Z.mod_small; [reflexivity|]. exact Hn.
Qed.

Lemma pow_53_63 : 2 ^ 53 < 2 ^ 63.
Proof. reflexivity. Qed.

Lemma add_whole (a b : Z) :
  0 <= a -> 0 <= b -> a + b < 2 ^ 53 ->
  (whole a + whole b)%float = whole (a + b).
Proof.
  intros Ha Hb Hab. pose proof pow_53_63 as Hp. apply Prim2SF_inj.
  rewrite FloatAxioms.add_spec, !whole_spec by lia.
  apply SFadd_int_float; lia.
Qed.

Lemma zero_add_whole (a : Z) :
  0 <= a < 2 ^ 53 -> (0 + whole a)%float = whole a.
Proof.
  intros Ha. change 0%float with (whole 0).
  rewrite add_whole by lia. reflexivity.
Qed.

(** What the addition of two whole numbers loses: nothing. *)
Lemma lost_whole (a b : Z) :
  0 <= a -> 0 <= b -> a + b < 2 ^ 53 ->
  ((whole a - whole (a + b)) + whole b)%float = 0%float.
Proof.
  intros Ha Hb Hab. pose proof pow_53_63 as Hp. apply Prim2SF_inj.
  rewrite FloatAxioms.add_spec, FloatAxioms.sub_spec, !whole_spec by lia.
  unfold SF64add, SF64sub.
  rewrite SFsub_int_float, SFadd_int_float by lia.
  replace (a - (a + b) + b) with 0 by lia. reflexivity.
Qed.

Lemma neumaier_whole (a b : Z) :
  0 <= a -> 0 <= b -> a + b < 2 ^ 53 ->
  neumaier (whole a, 0%float) (whole b) = (whole (a + b), 0%float).
Proof.
  intros Ha Hb Hab. unfold neumaier.
  rewrite add_whole, lost_whole by assumption.
  replace (a + b) with (b + a) by lia.
  rewrite lost_whole by lia.
  now destruct (abs (whole b) <=? abs (whole a))%float.
Qed.

Lemma total_nonneg (ns : list Z) : Forall (fun n => 0 <= n) ns -> 0 <= total ns.
Proof. induction 1; simpl; lia. Qed.

Lemma fold_neumaier_whole (ns : list Z) (a : Z) :
  0 <= a -> Forall (fun n => 0 <= n) ns -> a + total ns < 2 ^ 53 ->
  fold_left neumaier (map whole ns) (whole a, 0%float)
  = (whole (a + total ns), 0%float).
Proof.
  intros Ha Hns. revert a Ha.
  induction Hns as [|n ns Hn Hns IH]; intros a Ha Hb;
    cbn [map fold_left total] in *.
  - now rewrite Z.add_0_r.
  - pose proof (total_nonneg ns Hns).
    rewrite neumaier_whole by lia. rewrite IH by lia. f_equal. f_equal. lia.
Qed.

Lemma fold_add_whole (ns : list Z) (a : Z) :
  0 <= a -> Forall (fun n => 0 <= n) ns -> a + total ns < 2 ^ 53 ->
  fold_left PrimFloat.add (map whole ns) (whole a) = whole (a + total ns).
Proof.
  intros Ha Hns. revert a Ha.
  induction Hns as [|n ns Hn Hns IH]; intros a Ha Hb;
    cbn [map fold_left total] in *.
  - now rewrite Z.add_0_r.
  - pose proof (total_nonneg ns Hns).
    rewrite add_whole by lia. rewrite IH by lia. f_equal. lia.
Qed.

Lemma sum_whole (alg : sum_algorithm) (ns : list Z) :
  Forall (fun n => 0 <= n) ns -> total ns < 2 ^ 53 ->
  sum alg (map whole ns) = whole (total ns).
Proof.
  intros Hns Hb. destruct ns as [|n ns]; [reflexivity|].
  inversion Hns as [|? ? Hn Hns']; subst. pose proof (total_nonneg ns Hns').
  cbn [total] in Hb. cbn [map sum total].
  rewrite zero_add_whole by lia.
  destruct alg.
  - rewrite fold_add_whole by (assumption || lia). reflexivity.
  - rewrite fold_neumaier_whole by (assumption || lia). reflexivity.
Qed.

End Sums.

End FloatSum.


(** ** Validated setters *)

Section Setters.

Import FloatOrder.

Lemma nonneg_not_negative (c : float) : (0 <=? c) = true -> (c <? 0) = false.
Proof. intros H. destruct (compare_cases 0 c); congruence. Qed.

Lemma positive_not_nonpositive (w : float) : (0 <? w) = true -> (w <=? 0) = false.
Proof. intros H. destruct (compare_cases 0 w); congruence. Qed.

Lemma positive_not_zero (c : float) : (0 <? c) = true -> (c =? 0) = false.
Proof. intros H. destruct (compare_cases 0 c); congruence. Qed.

Lemma zero_not_negative (c : float) : (c =? 0) = true -> (c <? 0) = false.
Proof. intros H. destruct (compare_cases 0 c); congruence. Qed.

(** C6.  A capacity [c >= 0] is accepted by the constructor of every
    vehicle class and by the setter of [capacidad_tn], which stores it; a
    capacity [c < 0] is rejected by both with the [ValueError] of the
    setter, and the rejected assignment leaves the vehicle, hence its
    stored capacity, as it was.  There is no upper bound: [+infinity] is
    accepted. *)
Theorem capacidad_tn_validated :
  (forall c : float, (0 <=? c) = true ->
     (forall k id est, exists v,
         Vehiculo_init k id c est = Return v /\ capacidad_tn v = c) /\
     (forall id r, exists v,
         CamionTolva_init id c r = Return v /\ capacidad_tn v = c) /\
     (forall id n, exists v,
         VolqueteArticulado_init id c n = Return v /\ capacidad_tn v = c) /\
     (forall id t, exists v,
         CamionLigero_init id c t = Return v /\ capacidad_tn v = c) /\
     (forall self, set_capacidad_tn c self = (Return tt, con_capacidad c self) /\
                   capacidad_tn (con_capacidad c self) = c)) /\
  (forall c : float, (c <? 0) = true ->
     (forall k id est, Vehiculo_init k id c est = Raise capacidad_negativa) /\
     (forall id r, CamionTolva_init id c r = Raise capacidad_negativa) /\
     (forall id n, VolqueteArticulado_init id c n = Raise capacidad_negativa) /\
     (forall id t, CamionLigero_init id c t = Raise capacidad_negativa) /\
     (forall self, set_capacidad_tn c self = (Raise capacidad_negativa, self))) /\
  (forall self, set_capacidad_tn infinity self
                = (Return tt, con_capacidad infinity self)).
Proof.
  split; [|split].
  - intros c Hc. apply nonneg_not_negative in Hc.
    assert (Hinit : forall k id est, exists v,
               Vehiculo_init k id c est = Return v /\ capacidad_tn v = c).
    { intros k id est. unfold Vehiculo_init. rewrite Hc.
      eexists. split; reflexivity. }
    repeat split; intros; try apply Hinit.
    unfold set_capacidad_tn, bind, when. now rewrite Hc.
  - intros c Hc.
    assert (Hinit : forall k id est,
               Vehiculo_init k id c est = Raise capacidad_negativa).
    { intros k id est. unfold Vehiculo_init. now rewrite Hc. }
    repeat split; intros; try apply Hinit.
    unfold set_capacidad_tn, bind, when. now rewrite Hc.
  - intros self. reflexivity.
Qed.

Lemma capacidad_tn_validated_witness :
  CamionTolva_init "T001" 20 85 = Return Escenario.v1 /\
  set_capacidad_tn 35 Escenario.v1 = (Return tt, con_capacidad 35 Escenario.v1) /\
  set_capacidad_tn (-1) Escenario.v1 = (Raise capacidad_negativa, Escenario.v1).
Proof.
  split; [|split].
  - destruct (proj1 (proj2 (proj1 capacidad_tn_validated 20 eq_refl)) "T001" 85)
      as [v [Hv _]].
    rewrite Hv. f_equal. injection Hv as <-. reflexivity.
  - apply (proj1 capacidad_tn_validated 35 eq_refl).
  - apply (proj1 (proj2 capacidad_tn_validated) (-1) eq_refl).
Defined.

(** C7.  A weight [w > 0] is accepted by the constructor of
    [CargaMineral] and by the setter of [peso], which stores it; a weight
    [w <= 0] is rejected by both with a [ValueError], and the rejected
    assignment leaves the load, hence its stored weight, as it was. *)
Theorem peso_validated :
  (forall w : float, (0 <? w) = true ->
     (forall t h, exists c,
         CargaMineral_init t h w = Return c /\ peso c = w /\ tipo c = t /\
         humedad c = h) /\
     (forall self, set_peso w self = (Return tt, con_peso w self) /\
                   peso (con_peso w self) = w)) /\
  (forall w : float, (w <=? 0) = true ->
     (forall t h, CargaMineral_init t h w = Raise peso_invalido) /\
     (forall self, set_peso w self = (Raise peso_invalido, self) /\
                   peso (snd (set_peso w self)) = peso self)).
Proof.
  split.
  - intros w Hw. apply positive_not_nonpositive in Hw. split.
    + intros t h. unfold CargaMineral_init. rewrite Hw.
      eexists. repeat split.
    + intros self. unfold set_peso, bind, when. now rewrite Hw.
  - intros w Hw. split.
    + intros t h. unfold CargaMineral_init. now rewrite Hw.
    + intros self. unfold set_peso, bind, when. now rewrite Hw.
Qed.

Lemma peso_validated_witness :
  (exists c, CargaMineral_init "Cobre" 2.5 15 = Return c /\ peso c = 15 /\
             tipo c = "Cobre" /\ humedad c = 2.5) /\
  CargaMineral_init "Cobre" 2.5 0 = Raise peso_invalido.
Proof.
  split.
  - apply (proj1 (proj1 peso_validated 15 eq_refl)).
  - apply (proj1 (proj2 peso_validated 0 eq_refl)).
Defined.

End Setters.

(** ** validar_peso *)

Section ValidarPeso.

Import FloatOrder.

(** C1, as stated, fails on a weight that is a nan.  The constructors
    build the operation, [validar_peso] returns on it, and yet its weight
    is not [<=] the capacity of its vehicle. *)
Lemma validar_peso_nan_counterexample :
  CargaMineral_init "Oro" 0.8 nan = Return Escenario.carga_nan /\
  CamionLigero_init "L100" 5 "Hidráulica" = Return (vehiculo Escenario.oper_nan) /\
  OperacionTransporte_init Escenario.op1 (vehiculo Escenario.oper_nan)
    Escenario.carga_nan 8 contador_inicial = (Return Escenario.oper_nan, 2%Z) /\
  validar_peso Escenario.oper_nan = (Return tt, Escenario.oper_nan) /\
  (peso (carga Escenario.oper_nan)
     <=? capacidad_tn (vehiculo Escenario.oper_nan)) = false /\
  ~ (validar_peso Escenario.oper_nan = (Return tt, Escenario.oper_nan) <->
     (peso (carga Escenario.oper_nan)
        <=? capacidad_tn (vehiculo Escenario.oper_nan)) = true).
Proof.
  repeat split. intros [H _]. specialize (H eq_refl). discriminate H.
Qed.

(** C1, amended.  [validar_peso] raises its [ValueError] exactly when the
    weight of the load is [>] the capacity of the vehicle, and returns
    otherwise; in both cases the operation is left as it was.  When
    neither the weight nor the capacity is a nan, it returns exactly when
    the weight is [<=] the capacity. *)
Theorem validar_peso_spec (self : OperacionTransporte) :
  let w := peso (carga self) in
  let c := capacidad_tn (vehiculo self) in
  (validar_peso self = (Raise peso_excede, self) <-> gtb w c = true) /\
  (validar_peso self = (Return tt, self) <-> gtb w c = false) /\
  snd (validar_peso self) = self /\
  (is_nan w = false -> is_nan c = false ->
   (validar_peso self = (Return tt, self) <-> (w <=? c) = true)).
Proof.
  intros w c.
  assert (Hrun : validar_peso self
                 = if c <? w then (Raise peso_excede, self) else (Return tt, self)).
  { unfold validar_peso, bind, get, when, gtb. fold w c.
    destruct (c <? w); reflexivity. }
  rewrite Hrun. unfold gtb.
  destruct (compare_cases w c) as [Hlt Hgt _ _ Hle _|Hlt Hgt _ _ Hle _
                                  |Hlt Hgt _ _ Hle _|Hlt Hgt _ _ Hle _ Hnan];
    rewrite Hgt, Hle; repeat split; try congruence.
  destruct Hnan; congruence.
Qed.

Lemma validar_peso_spec_witness :
  validar_peso Escenario.oper3 = (Raise peso_excede, Escenario.oper3) /\
  validar_peso Escenario.oper_nan = (Return tt, Escenario.oper_nan) /\
  validar_peso Escenario.oper1 = (Return tt, Escenario.oper1).
Proof.
  split; [|split].
  - apply (proj1 (validar_peso_spec Escenario.oper3)). reflexivity.
  - apply (proj1 (proj2 (validar_peso_spec Escenario.oper_nan))). reflexivity.
  - apply (proj2 (proj2 (proj2 (validar_peso_spec Escenario.oper1)))
             eq_refl eq_refl).
    reflexivity.
Defined.

End ValidarPeso.

(** ** Dicts *)

Section Dicts.

Context {V : Type}.

Lemma getitem_setitem_same (k : string) (v : V) (d : dict V) :
  getitem k (setitem k v d) = Return v.
Proof.
  induction d as [|[k' v'] d IH]; simpl.
  - now rewrite String.eqb_refl.
  - destruct (String.eqb k' k) eqn:E; simpl; rewrite E; auto.
Qed.

Lemma getitem_setitem_other (k k' : string) (v : V) (d : dict V) :
  k' <> k -> lookup k' (setitem k v d) = lookup k' d.
Proof.
  intros Hk. unfold lookup. induction d as [|[k0 v0] d IH]; simpl.
  - apply String.eqb_neq in Hk. rewrite String.eqb_sym in Hk. now rewrite Hk.
  - destruct (String.eqb k0 k) eqn:E; simpl.
    + apply String.eqb_eq in E. subst k0.
      apply String.eqb_neq in Hk. rewrite String.eqb_sym in Hk. now rewrite Hk.
    + destruct (String.eqb k0 k'); auto.
Qed.

Lemma setitem_absent (k : string) (v : V) (d : dict V) :
  contains k d = false -> setitem k v d = (d ++ [(k, v)])%list.
Proof.
  unfold contains. induction d as [|[k' v'] d IH]; simpl; auto.
  intros H. apply orb_false_iff in H as [E H]. rewrite E. now rewrite IH.
Qed.

Lemma setitem_present_keys (k : string) (v : V) (d : dict V) :
  contains k d = true -> map fst (setitem k v d) = map fst d.
Proof.
  unfold contains. induction d as [|[k' v'] d IH]; simpl; [discriminate|].
  destruct (String.eqb k' k) eqn:E; simpl; auto.
  intros H. now rewrite IH.
Qed.

Lemma contains_setitem (k : string) (v : V) (d : dict V) :
  contains k (setitem k v d) = true.
Proof.
  unfold contains. induction d as [|[k' v'] d IH]; simpl.
  - now rewrite String.eqb_refl.
  - destruct (String.eqb k' k) eqn:E; simpl; rewrite E; auto.
Qed.

Lemma lookup_absent (k : string) (d : dict V) :
  contains k d = false -> lookup k d = None.
Proof.
  unfold contains, lookup. induction d as [|[k' v'] d IH]; simpl; auto.
  intros H. apply orb_false_iff in H as [E H]. rewrite E. auto.
Qed.

Lemma getitem_present (k : string) (d : dict V) :
  contains k d = true -> exists v, getitem k d = Return v /\ lookup k d = Some v.
Proof.
  unfold contains, lookup. induction d as [|[k' v'] d IH]; simpl; [discriminate|].
  destruct (String.eqb k' k) eqn:E; simpl; eauto.
Qed.

End Dicts.

(** ** AlmacenMineral *)

Section Almacen.

(** C2.  [registrar_ingreso] of an operation that is not finalized raises
    its [ValueError] and leaves the warehouse, hence its inventory, as it
    was.  Of a finalized operation it returns, and afterwards the entry of
    the load's type holds the previous value ([0] for a type that was
    absent) plus the load's weight, every other entry is unchanged, and a
    new type has been added after the existing ones. *)
Theorem registrar_ingreso_spec (operacion : OperacionTransporte)
    (self : AlmacenMineral) :
  (finalizada operacion = false ->
     registrar_ingreso operacion self = (Raise no_finalizada, self)) /\
  (finalizada operacion = true ->
     let t := tipo (carga operacion) in
     let w := peso (carga operacion) in
     exists self',
       registrar_ingreso operacion self = (Return tt, self') /\
       lookup t (inventario self') = Some (stock t self + w) /\
       (forall k, k <> t ->
          lookup k (inventario self') = lookup k (inventario self)) /\
       tipos self' = if contains t (inventario self) then tipos self
                     else (tipos self ++ [t])%list).
Proof.
  split; intros Hf.
  - unfold registrar_ingreso, bind, when. now rewrite Hf.
  - intros t w. unfold registrar_ingreso, bind, when, get, lift, modify, ret.
    rewrite Hf. simpl. fold t w. unfold stock, tipos.
    destruct (contains t (inventario self)) eqn:Hc; simpl.
    + destruct (getitem_present t (inventario self) Hc) as [v [Hg Hl]].
      rewrite Hg, Hl. eexists. split; [reflexivity|]. simpl.
      unfold lookup at 1. rewrite getitem_setitem_same.
      repeat split.
      * intros k Hk. now apply getitem_setitem_other.
      * now apply setitem_present_keys.
    + rewrite getitem_setitem_same, (lookup_absent _ _ Hc).
      eexists. split; [reflexivity|]. simpl.
      unfold lookup at 1. rewrite getitem_setitem_same.
      repeat split.
      * intros k Hk. rewrite !getitem_setitem_other by assumption. reflexivity.
      * rewrite (setitem_absent t 0 _ Hc).
        rewrite setitem_present_keys.
        -- now rewrite map_app.
        -- rewrite <- (setitem_absent t 0 _ Hc). apply contains_setitem.
Qed.

Lemma registrar_ingreso_spec_witness :
  registrar_ingreso Escenario.oper1 AlmacenMineral_init
    = (Raise no_finalizada, AlmacenMineral_init) /\
  exists self',
    registrar_ingreso (con_finalizada true Escenario.oper1) AlmacenMineral_init
      = (Return tt, self') /\
    lookup "Cobre" (inventario self') = Some (0 + 15).
Proof.
  split.
  - apply (proj1 (registrar_ingreso_spec Escenario.oper1 AlmacenMineral_init)).
    reflexivity.
  - destruct (proj2 (registrar_ingreso_spec (con_finalizada true Escenario.oper1)
                       AlmacenMineral_init) eq_refl) as [self' [H1 [H2 _]]].
    exists self'. split; assumption.
Defined.

Lemma sum_app (xs : list float) (v : float) :
  sum left_to_right (xs ++ [v]) = sum left_to_right xs + v.
Proof.
  destruct xs as [|x xs]; [reflexivity|].
  cbn [app sum]. now rewrite fold_left_app.
Qed.

(** The two [sum]s differ where an addition rounds: 0.1, 0.2 and 0.3 add
    up to 0.6000000000000001 from left to right and to 0.6 with the
    compensation, which is not the compensated total of 0.1 and 0.2
    plus 0.3. *)
Lemma sum_algorithms_differ :
  sum left_to_right [0.1; 0.2; 0.3] = 0.6000000000000001 /\
  sum compensated [0.1; 0.2; 0.3] = 0.6 /\
  sum compensated [0.1; 0.2; 0.3] <> sum compensated [0.1; 0.2] + 0.3.
Proof.
  split; [reflexivity|]. split; [reflexivity|].
  intros H. apply (f_equal (fun x => x =? 0.6)) in H.
  vm_compute in H. discriminate H.
Qed.

Lemma values_inventario_entero (pesos : list (string * Z)) :
  values (inventario_entero pesos) = map whole (map snd pesos).
Proof. unfold values, inventario_entero. now rewrite !map_map. Qed.

Lemma Forall_snd (pesos : list (string * Z)) :
  Forall (fun kn => (0 <= snd kn)%Z) pesos ->
  Forall (fun n => (0 <= n)%Z) (map snd pesos).
Proof. induction 1; simpl; constructor; assumption. Qed.

Lemma stock_total_entero (alg : sum_algorithm) (pesos : list (string * Z)) :
  Forall (fun kn => (0 <= snd kn)%Z) pesos ->
  (total (map snd pesos) < 2 ^ 53)%Z ->
  calcular_stock_total alg {| inventario := inventario_entero pesos |}
  = whole (total (map snd pesos)).
Proof.
  intros Hp Hb. unfold calcular_stock_total. cbn [inventario].
  rewrite values_inventario_entero.
  apply FloatSum.sum_whole; [apply Forall_snd|]; assumption.
Qed.

(** C3.  [calcular_stock_total] is the sum of the values of the
    inventory, whichever [sum] the interpreter has:
    - it is [0] on an empty warehouse;
    - when the values are whole numbers, none negative, of a total below
      [2^53], it is their total, exactly;
    - by the [sum] that adds from left to right, it is the total of the
      entries before the last plus the last entry, for all values (the
      compensated [sum] corrects the roundings of such a total, and this
      does not hold of it);
    - after the ingestion into a new warehouse of two finalized
      operations, the first with a load of 15 of Cobre and the second
      with a load of 25 of Plata, the inventory is
      [{"Cobre": 15, "Plata": 25}] and the total stock is [40]. *)
Theorem calcular_stock_total_spec :
  (forall alg, calcular_stock_total alg AlmacenMineral_init = 0) /\
  (forall alg (pesos : list (string * Z)),
     Forall (fun kn => (0 <= snd kn)%Z) pesos ->
     (total (map snd pesos) < 2 ^ 53)%Z ->
     calcular_stock_total alg {| inventario := inventario_entero pesos |}
     = whole (total (map snd pesos))) /\
  (forall inv k v,
     calcular_stock_total left_to_right
       {| inventario := (inv ++ [(k, v)])%list |}
     = calcular_stock_total left_to_right {| inventario := inv |} + v) /\
  (forall alg (oper1 oper2 : OperacionTransporte),
     finalizada oper1 = true -> finalizada oper2 = true ->
     tipo (carga oper1) = "Cobre" -> peso (carga oper1) = 15 ->
     tipo (carga oper2) = "Plata" -> peso (carga oper2) = 25 ->
     exists almacen,
       registrar_ingresos [oper1; oper2] AlmacenMineral_init
         = (Return tt, almacen) /\
       inventario almacen = [("Cobre", 15); ("Plata", 25)] /\
       calcular_stock_total alg almacen = 40).
Proof.
  split; [intros alg; destruct alg; reflexivity|].
  split; [exact stock_total_entero|]. split.
  - intros inv k v. unfold calcular_stock_total, values. cbn [inventario].
    rewrite map_app. apply sum_app.
  - intros alg oper1 oper2 Hf1 Hf2 Ht1 Hw1 Ht2 Hw2.
    unfold registrar_ingresos, registrar_ingreso, bind, when, get, lift,
      modify, ret.
    rewrite Hf1, Hf2, Ht1, Hw1, Ht2, Hw2. simpl.
    eexists. split; [reflexivity|]. split; [reflexivity|].
    destruct alg; reflexivity.
Qed.

(** The scenario: the two loads and the two operations are constructed,
    the operations validated and finalized, then ingested; the total is
    [40] by either [sum].  And a warehouse of 15, 25 and 2 tonnes holds
    42 tonnes. *)
Lemma calcular_stock_total_spec_witness :
  CargaMineral_init "Cobre" 2.5 15 = Return Escenario.carga1 /\
  CargaMineral_init "Plata" 1.0 25 = Return Escenario.carga2 /\
  construir [(Escenario.op1, Escenario.v1, Escenario.carga1, 12);
             (Escenario.op2, Escenario.v2, Escenario.carga2, 40)]
            contador_inicial
    = (Return [Escenario.oper1; Escenario.oper2], 3%Z) /\
  Escenario.validar_y_finalizar Escenario.oper1
    = (Return tt, con_finalizada true Escenario.oper1) /\
  Escenario.validar_y_finalizar Escenario.oper2
    = (Return tt, con_finalizada true Escenario.oper2) /\
  (forall alg, exists almacen,
    registrar_ingresos [con_finalizada true Escenario.oper1;
                        con_finalizada true Escenario.oper2]
                       AlmacenMineral_init = (Return tt, almacen) /\
    inventario almacen = [("Cobre", 15); ("Plata", 25)] /\
    calcular_stock_total alg almacen = 40) /\
  (forall alg,
    calcular_stock_total alg
      {| inventario := inventario_entero [("Cobre", 15); ("Plata", 25);
                                          ("Oro", 2)]%Z |}
    = whole 42).
Proof.
  repeat (split; [reflexivity|]). split.
  - intros alg.
    apply (proj2 (proj2 (proj2 calcular_stock_total_spec)) alg); reflexivity.
  - intros alg.
    apply (proj1 (proj2 calcular_stock_total_spec) alg
             [("Cobre", 15); ("Plata", 25); ("Oro", 2)]%Z).
    + repeat constructor; simpl; lia.
    + reflexivity.
Defined.

End Almacen.

(** ** The identifiers of the operations *)

Section Contador.

Lemma ids_desde_lower (c : Z) (n : nat) (i : Z) :
  In i (ids_desde c n) -> (c <= i)%Z.
Proof.
  revert c. induction n as [|n IH]; simpl; intros c H; [contradiction|].
  destruct H as [<-|H]; [lia|]. apply IH in H. lia.
Qed.

Lemma ids_desde_sorted (c : Z) (n : nat) : StronglySorted Z.lt (ids_desde c n).
Proof.
  revert c. induction n as [|n IH]; simpl; intros c; constructor; auto.
  apply Forall_forall. intros i Hi. apply ids_desde_lower in Hi. lia.
Qed.

Lemma sorted_lt_NoDup (l : list Z) : StronglySorted Z.lt l -> NoDup l.
Proof.
  induction 1 as [|a l Hs IH Hall]; constructor; auto.
  intros Hin. rewrite Forall_forall in Hall. specialize (Hall a Hin). lia.
Qed.

Lemma ids_desde_nth (c : Z) (n i : nat) :
  (i < n)%nat -> nth i (ids_desde c n) 0%Z = (c + Z.of_nat i)%Z.
Proof.
  revert c i. induction n as [|n IH]; intros c i Hi; [lia|].
  destruct i as [|i]; simpl; [lia|]. rewrite IH by lia. lia.
Qed.

(** Constructions from any value of the counter: each one takes the
    current value and leaves the next. *)
Lemma construir_desde (args : list args_operacion) (c : Z) :
  exists ops,
    construir args c = (Return ops, (c + Z.of_nat (length args))%Z) /\
    map id_op ops = ids_desde c (length args) /\
    map (fun op => (operador op, vehiculo op, carga op, distancia op)) ops = args /\
    Forall (fun op => finalizada op = false) ops.
Proof.
  revert c. induction args as [|[[[o v] g] d] args IH]; intros c; simpl.
  - exists []. unfold ret. repeat split; auto. f_equal. lia.
  - destruct (IH (c + 1)%Z) as [ops [Hrun [Hids [Hargs Hfin]]]].
    eexists. unfold bind, OperacionTransporte_init, get, put, ret; simpl.
    unfold bind; simpl. rewrite Hrun. split.
    + f_equal. lia.
    + simpl. rewrite Hids, Hargs. repeat split; auto.
Qed.

(** C8.  The class attribute [contador] starts at [1], a construction
    assigns its current value and adds one to it.  So the operations
    constructed one after the other in a process, whatever their arguments
    and however many, carry the identifiers [1; 2; 3; ...] in construction
    order, the [i]-th construction (from 0) with its own arguments and
    the identifier [1 + i]; these are strictly increasing and pairwise
    distinct. *)
Theorem ids_consecutive (args : list args_operacion) :
  OperacionTransporte_init Escenario.op1 Escenario.v1 Escenario.carga1 12
    contador_inicial = (Return Escenario.oper1, 2%Z) /\
  (forall o v g d c, exists op,
      OperacionTransporte_init o v g d c = (Return op, (c + 1)%Z) /\
      id_op op = c) /\
  exists ops,
    construir args contador_inicial
      = (Return ops, (1 + Z.of_nat (length args))%Z) /\
    length ops = length args /\
    map (fun op => (operador op, vehiculo op, carga op, distancia op)) ops
      = args /\
    map id_op ops = ids_desde 1 (length args) /\
    (forall i, (i < length args)%nat ->
       nth i (map id_op ops) 0%Z = (1 + Z.of_nat i)%Z) /\
    StronglySorted Z.lt (map id_op ops) /\
    NoDup (map id_op ops).
Proof.
  split; [reflexivity|]. split.
  - intros o v g d c. eexists. split; reflexivity.
  - destruct (construir_desde args contador_inicial) as [ops [Hrun [Hids [Hargs _]]]].
    exists ops. rewrite Hids. repeat split; auto.
    + rewrite <- Hargs. now rewrite length_map.
    + intros i Hi. now apply ids_desde_nth.
    + apply ids_desde_sorted.
    + apply sorted_lt_NoDup, ids_desde_sorted.
Qed.

End Contador.

Lemma ids_consecutive_witness :
  exists ops,
    construir [(Escenario.op1, Escenario.v1, Escenario.carga1, 12);
               (Escenario.op2, Escenario.v2, Escenario.carga2, 40);
               (Escenario.op1, Escenario.v3, Escenario.carga3, 8)]
              contador_inicial = (Return ops, 4%Z) /\
    nth 2 (map id_op ops) 0%Z = 3%Z.
Proof.
  destruct (proj2 (proj2 (ids_consecutive
              [(Escenario.op1, Escenario.v1, Escenario.carga1, 12);
               (Escenario.op2, Escenario.v2, Escenario.carga2, 40);
               (Escenario.op1, Escenario.v3, Escenario.carga3, 8)])))
    as [ops [Hrun [_ [_ [_ [Hnth _]]]]]].
  exists ops. split; [exact Hrun|]. apply (Hnth 2%nat). simpl. lia.
Defined.

(** ** The roster of an operator *)

Section Roster.

Lemma list_contains_In (v : ref) (l : list ref) :
  list_contains v l = true <-> In v l.
Proof.
  unfold list_contains. rewrite existsb_exists. split.
  - intros [x [Hin Heq]]. apply Nat.eqb_eq in Heq. now subst.
  - intros Hin. exists v. split; auto. apply Nat.eqb_refl.
Qed.

Lemma asociar_vehiculo_run (v : ref) (self : Operador) :
  asociar_vehiculo v self
  = (Return tt, if list_contains v (vehiculos_asociados self) then self
                else append_vehiculo v self).
Proof.
  unfold asociar_vehiculo, bind, get, when, modify, ret.
  now destruct (list_contains v (vehiculos_asociados self)).
Qed.

Lemma asociar_vehiculo_NoDup (v : ref) (self : Operador) :
  NoDup (vehiculos_asociados self) ->
  NoDup (vehiculos_asociados (snd (asociar_vehiculo v self))).
Proof.
  intros Hnd. rewrite asociar_vehiculo_run. simpl.
  destruct (list_contains v (vehiculos_asociados self)) eqn:E; auto.
  simpl. apply NoDup_app; auto.
  - repeat constructor. simpl. tauto.
  - intros x Hx [<-|[]]. apply list_contains_In in Hx. congruence.
Qed.

Lemma asociar_vehiculos_NoDup (vs : list ref) (self : Operador) :
  NoDup (vehiculos_asociados self) ->
  fst (asociar_vehiculos vs self) = Return tt /\
  NoDup (vehiculos_asociados (snd (asociar_vehiculos vs self))).
Proof.
  revert self. induction vs as [|v vs IH]; intros self Hnd; simpl; auto.
  unfold bind. pose proof (asociar_vehiculo_NoDup v self Hnd) as H1.
  rewrite asociar_vehiculo_run in *. simpl in *. now apply IH.
Qed.

(** C9.  [asociar_vehiculo] always returns.  On a vehicle that is in the
    roster it changes nothing; otherwise it puts the vehicle after the
    ones already there, which keep their order, and changes nothing else.
    A second call with the same vehicle changes nothing.  A roster without
    repetitions stays so, hence so is the roster of a new operator after
    any sequence of calls. *)
Theorem asociar_vehiculo_spec (v : ref) (self : Operador) :
  let roster := vehiculos_asociados self in
  let self' := snd (asociar_vehiculo v self) in
  fst (asociar_vehiculo v self) = Return tt /\
  (In v roster -> self' = self) /\
  (~ In v roster ->
     vehiculos_asociados self' = (roster ++ [v])%list /\
     _nombre self' = _nombre self /\ _dni self' = _dni self /\
     _licencia self' = _licencia self /\
     clase_operador self' = clase_operador self) /\
  In v (vehiculos_asociados self') /\
  (exists sufijo, vehiculos_asociados self' = (roster ++ sufijo)%list) /\
  asociar_vehiculo v self' = (Return tt, self') /\
  (NoDup roster -> NoDup (vehiculos_asociados self')) /\
  (forall k nombre dni licencia vs,
     NoDup (vehiculos_asociados
              (snd (asociar_vehiculos vs (Operador_init k nombre dni licencia))))).
Proof.
  intros roster self'. subst self'.
  pose proof (asociar_vehiculo_run v self) as Hrun.
  pose proof (asociar_vehiculo_NoDup v self) as Hnodup.
  assert (Hall : forall k nombre dni licencia vs,
             NoDup (vehiculos_asociados
                      (snd (asociar_vehiculos vs (Operador_init k nombre dni licencia))))).
  { intros. apply asociar_vehiculos_NoDup. constructor. }
  destruct (list_contains v (vehiculos_asociados self)) eqn:E;
    rewrite Hrun in *; simpl in *; fold roster in Hnodup |- *.
  - pose proof (proj1 (list_contains_In v _) E) as Hin.
    repeat split; auto; try (intros; contradiction).
    exists []. now rewrite app_nil_r.
  - assert (Hnin : ~ In v roster).
    { intros Hin. apply list_contains_In in Hin. unfold roster in Hin. congruence. }
    assert (Hin' : In v (roster ++ [v])).
    { apply in_or_app. right. now left. }
    repeat split; auto; try (intros; contradiction).
    + exists [v]. reflexivity.
    + rewrite asociar_vehiculo_run.
      replace (list_contains v (vehiculos_asociados (append_vehiculo v self)))
        with true; auto.
      symmetry. now apply list_contains_In.
Qed.

(** The roster of the scenario: [v1], then [v3], and [v1] once more. *)
Lemma asociar_vehiculo_spec_witness :
  asociar_vehiculos [Escenario.ref_v1; Escenario.ref_v3] Escenario.op1_nuevo
    = (Return tt, Escenario.op1) /\
  snd (asociar_vehiculo Escenario.ref_v1 Escenario.op1) = Escenario.op1 /\
  vehiculos_asociados (snd (asociar_vehiculo Escenario.ref_v2 Escenario.op1))
    = [Escenario.ref_v1; Escenario.ref_v3; Escenario.ref_v2] /\
  NoDup (vehiculos_asociados (snd (asociar_vehiculo Escenario.ref_v2 Escenario.op1))).
Proof.
  split; [reflexivity|]. split; [|split].
  - apply (proj1 (proj2 (asociar_vehiculo_spec Escenario.ref_v1 Escenario.op1))).
    simpl. now left.
  - apply (proj1 (proj2 (proj2 (asociar_vehiculo_spec Escenario.ref_v2
                                  Escenario.op1)))).
    simpl. intros [H|[H|[]]]; discriminate.
  - apply (proj1 (proj2 (proj2 (proj2 (proj2 (proj2 (proj2
             (asociar_vehiculo_spec Escenario.ref_v2 Escenario.op1)))))))).
    constructor; [simpl; intros [H|[]]; discriminate|].
    constructor; [simpl; tauto|constructor].
Defined.

End Roster.

(** ** calcular_rendimiento *)

Section Rendimiento.

Lemma truediv_nonzero (a b : float) :
  (b =? 0) = false -> truediv a b = Return (a / b).
Proof. unfold truediv. now intros ->. Qed.

Lemma truediv_zero (a b : float) :
  (b =? 0) = true -> truediv a b = Raise ZeroDivisionError.
Proof. unfold truediv. now intros ->. Qed.

(** C10.  No class guards the division of the weight by the capacity.  A
    capacity that is zero (of either sign) passes the validation of the
    constructor of each class, and on a vehicle with such a capacity
    [calcular_rendimiento] raises [ZeroDivisionError], whatever the class,
    the distance and the weight. *)
Theorem rendimiento_capacidad_cero (c : float) :
  (c =? 0) = true ->
  (forall id r, exists v,
      CamionTolva_init id c r = Return v /\
      forall distancia peso,
        calcular_rendimiento v distancia peso = Raise ZeroDivisionError) /\
  (forall id n, exists v,
      VolqueteArticulado_init id c n = Return v /\
      forall distancia peso,
        calcular_rendimiento v distancia peso = Raise ZeroDivisionError) /\
  (forall id t, exists v,
      CamionLigero_init id c t = Return v /\
      forall distancia peso,
        calcular_rendimiento v distancia peso = Raise ZeroDivisionError) /\
  (forall v distancia peso,
      capacidad_tn v = c ->
      calcular_rendimiento v distancia peso = Raise ZeroDivisionError).
Proof.
  intros Hc.
  assert (Hall : forall v distancia peso,
             capacidad_tn v = c ->
             calcular_rendimiento v distancia peso = Raise ZeroDivisionError).
  { intros v distancia peso Hv. unfold calcular_rendimiento.
    destruct (clase v); rewrite Hv, (truediv_zero _ _ Hc); reflexivity. }
  pose proof (zero_not_negative c Hc) as Hneg.
  repeat split; auto; intros;
    unfold CamionTolva_init, VolqueteArticulado_init, CamionLigero_init,
      Vehiculo_init; rewrite Hneg; eexists; (split; [reflexivity|]);
    intros; now apply Hall.
Qed.

Lemma rendimiento_capacidad_cero_witness :
  calcular_rendimiento (con_capacidad 0 Escenario.v1) 12 15
    = Raise ZeroDivisionError /\
  calcular_rendimiento (con_capacidad (-0) Escenario.v3) 8 6
    = Raise ZeroDivisionError.
Proof.
  split.
  - apply (proj2 (proj2 (proj2 (rendimiento_capacidad_cero 0 eq_refl)))).
    reflexivity.
  - apply (proj2 (proj2 (proj2 (rendimiento_capacidad_cero (-0) eq_refl)))).
    reflexivity.
Defined.

(** C4.  On a tipper with a positive capacity, and for a distance and a
    weight that are not negative, [calcular_rendimiento] returns the
    formula of the specification: [(1 / (1 + f)) * distance *
    (chassisResistance / 100)] rounded to 3 decimal places, with [f =
    min(weight / capacity, 1.0)]; neither division raises, the load
    fraction not being negative.  With capacity 20 and resistance 85,
    weight 15 and distance 12: the load fraction is 0.75 and the yield is
    5.829, which is also [(1 / 1.75) * 12 * 0.85] rounded. *)
Theorem tolva_rendimiento :
  (forall (v : Vehiculo) (resistencia_chasis distancia peso : float),
     clase v = CamionTolva resistencia_chasis ->
     (0 <? capacidad_tn v) = true ->
     (0 <=? distancia) = true ->
     (0 <=? peso) = true ->
     calcular_rendimiento v distancia peso
     = Return (Spec.tipperYield (capacidad_tn v) resistencia_chasis
                                distancia peso)) /\
  CamionTolva_init "T001" 20 85 = Return Escenario.v1 /\
  Spec.loadFraction 15 20 = 0.75 /\
  calcular_rendimiento Escenario.v1 12 15 = Return 5.829 /\
  round3 ((1 / 1.75) * 12 * 0.85) = 5.829.
Proof.
  split; [|repeat split].
  intros v resistencia_chasis distancia peso Hk Hc _ Hw.
  unfold calcular_rendimiento. rewrite Hk.
  rewrite (truediv_nonzero _ _ (positive_not_zero _ Hc)). cbn [obind].
  unfold min at 1.
  rewrite (truediv_nonzero _ _ (FloatArith.fraction_denominator _ _ Hw Hc)).
  reflexivity.
Qed.

Lemma tolva_rendimiento_witness :
  calcular_rendimiento Escenario.v1 12 15
  = Return (Spec.tipperYield 20 85 12 15).
Proof.
  apply (proj1 tolva_rendimiento Escenario.v1 85 12 15); reflexivity.
Defined.

(** C5.  On an articulated dumper with a positive capacity, and for a
    distance and a weight that are not negative, [calcular_rendimiento]
    returns the formula of the specification: [distance * axleFactor *
    (1 - 0.2 * f)] rounded to 3 decimal places, with [axleFactor = 1 +
    (axleCount - 2) * 0.05] and [f = min(weight / capacity, 1.0)].  With
    capacity 35 and 4 axles, weight 25 and distance 40: the axle factor is
    1.1, the load fraction is 25/35 (0.714...), and the yield is 37.714,
    less than 0.005 away from the 37.71 of the specification. *)
Theorem articulado_rendimiento :
  (forall (v : Vehiculo) (num_ejes distancia peso : float),
     clase v = VolqueteArticulado num_ejes ->
     (0 <? capacidad_tn v) = true ->
     (0 <=? distancia) = true ->
     (0 <=? peso) = true ->
     calcular_rendimiento v distancia peso
     = Return (Spec.articulatedYield (capacidad_tn v) num_ejes distancia peso)) /\
  VolqueteArticulado_init "V010" 35 4 = Return Escenario.v2 /\
  Spec.axleFactor 4 = 1.1 /\
  Spec.loadFraction 25 35 = 25 / 35 /\
  25 / 35 = 0.7142857142857143 /\
  calcular_rendimiento Escenario.v2 40 25 = Return 37.714 /\
  (abs (37.714 - 37.71) <? 0.005) = true.
Proof.
  split; [|repeat split].
  intros v num_ejes distancia peso Hk Hc _ _.
  unfold calcular_rendimiento. rewrite Hk.
  rewrite (truediv_nonzero _ _ (positive_not_zero _ Hc)). reflexivity.
Qed.

Lemma articulado_rendimiento_witness :
  calcular_rendimiento Escenario.v2 40 25
  = Return (Spec.articulatedYield 35 4 40 25).
Proof.
  apply (proj1 articulado_rendimiento Escenario.v2 4 40 25);
    reflexivity.
Defined.

End Rendimiento.

(** ** Invariants of vehicles and loads *)

Section Invariantes.

Lemma llamar_keeps (l : llamada_vehiculo) (self : Vehiculo) :
  (capacidad_tn self <? 0) = false ->
  (capacidad_tn (snd (llamar l self)) <? 0) = false /\
  id_vehiculo (snd (llamar l self)) = id_vehiculo self /\
  clase (snd (llamar l self)) = clase self.
Proof.
  intros Hc. destruct l as [valor|nuevo]; simpl.
  - unfold set_capacidad_tn, bind, when.
    destruct (valor <? 0) eqn:E; simpl; auto.
  - auto.
Qed.

(** X1.  A vehicle that its constructor returned never has a negative
    capacity, whatever assignments to [capacidad_tn] (accepted or
    rejected) and calls of [cambiar_estado] follow, and it keeps its
    identifier and its class. *)
Theorem vehiculo_capacity_never_negative (k : ClaseVehiculo) (id est : string)
    (c : float) (v : Vehiculo) (ls : list llamada_vehiculo) :
  Vehiculo_init k id c est = Return v ->
  (capacidad_tn (usar_vehiculo ls v) <? 0) = false /\
  id_vehiculo (usar_vehiculo ls v) = id /\
  clase (usar_vehiculo ls v) = k.
Proof.
  unfold Vehiculo_init. destruct (c <? 0) eqn:Hc; [discriminate|].
  intros [= <-].
  set (v := {| _id_vehiculo := id; _capacidad_tn := c; _estado := est;
               clase := k |}).
  assert (H : (capacidad_tn v <? 0) = false /\ id_vehiculo v = id /\ clase v = k)
    by (repeat split; assumption).
  clearbody v. revert v H.
  induction ls as [|l ls IH]; intros v H; simpl; [exact H|].
  apply IH. destruct H as [H1 [H2 H3]].
  destruct (llamar_keeps l v H1) as [K1 [K2 K3]].
  repeat split; congruence.
Qed.

Lemma vehiculo_capacity_never_negative_witness :
  (capacidad_tn (usar_vehiculo [asignar_capacidad (-3); llamar_cambiar_estado "";
                                asignar_capacidad 0; asignar_capacidad (-1)]
                               Escenario.v1) <? 0) = false.
Proof.
  apply (vehiculo_capacity_never_negative (CamionTolva 85) "T001" "Disponible" 20
           Escenario.v1). reflexivity.
Defined.

(** X2.  A load that its constructor returned never has a weight [<= 0],
    whatever assignments to [peso] (accepted or rejected) follow, and it
    keeps its type and its humidity. *)
Theorem carga_weight_never_nonpositive (t : string) (h w : float)
    (g : CargaMineral) (vals : list float) :
  CargaMineral_init t h w = Return g ->
  (peso (asignar_pesos vals g) <=? 0) = false /\
  tipo (asignar_pesos vals g) = t /\
  humedad (asignar_pesos vals g) = h.
Proof.
  unfold CargaMineral_init. destruct (w <=? 0) eqn:Hw; [discriminate|].
  intros [= <-].
  set (g := {| tipo := t; humedad := h; _peso := w |}).
  assert (H : (peso g <=? 0) = false /\ tipo g = t /\ humedad g = h)
    by (repeat split; assumption).
  clearbody g. revert g H.
  induction vals as [|val vals IH]; intros g H; simpl; [exact H|].
  apply IH. unfold set_peso, bind, when.
  destruct (val <=? 0) eqn:E; simpl; [exact H|].
  destruct H as [_ [H2 H3]]. repeat split; assumption.
Qed.

Lemma carga_weight_never_nonpositive_witness :
  (peso (asignar_pesos [0; 7; -2; nan] Escenario.carga1) <=? 0) = false.
Proof.
  apply (carga_weight_never_nonpositive "Cobre" 2.5 15 Escenario.carga1).
  reflexivity.
Defined.

(** X3.  [cambiar_estado] accepts any text, the empty one too, and
    changes nothing but [estado]; the last call wins.  No other method
    reads [estado]: the yield of the vehicle, and the validation and the
    report of an operation that uses it, are the same whatever its
    state. *)
Theorem estado_gates_nothing (self : Vehiculo) (nuevo : string) :
  cambiar_estado nuevo self = (Return tt, con_estado nuevo self) /\
  estado (con_estado nuevo self) = nuevo /\
  capacidad_tn (con_estado nuevo self) = capacidad_tn self /\
  id_vehiculo (con_estado nuevo self) = id_vehiculo self /\
  clase (con_estado nuevo self) = clase self /\
  (forall otro, snd (cambiar_estado nuevo (snd (cambiar_estado otro self)))
                = snd (cambiar_estado nuevo self)) /\
  (forall valor,
     snd (set_capacidad_tn valor (con_estado nuevo self))
     = con_estado nuevo (snd (set_capacidad_tn valor self)) /\
     fst (set_capacidad_tn valor (con_estado nuevo self))
     = fst (set_capacidad_tn valor self)) /\
  (forall distancia peso,
     calcular_rendimiento (con_estado nuevo self) distancia peso
     = calcular_rendimiento self distancia peso) /\
  (forall op : OperacionTransporte,
     fst (validar_peso (con_vehiculo (con_estado nuevo (vehiculo op)) op))
     = fst (validar_peso op) /\
     generar_reporte (con_vehiculo (con_estado nuevo (vehiculo op)) op)
     = generar_reporte op).
Proof.
  repeat split.
  - unfold set_capacidad_tn, bind, when. now destruct (valor <? 0).
  - unfold set_capacidad_tn, bind, when. now destruct (valor <? 0).
  - unfold validar_peso, bind, get, when; simpl. now destruct (gtb _ _).
Qed.

End Invariantes.

(** ** More on floats: signs *)

Module FloatSigns.

Lemma not_negative_spec (x : float) :
  (x <? 0) = false -> zero_or_above_or_nan (Prim2SF x).
Proof.
  rewrite FloatAxioms.ltb_spec, FloatArith.Prim2SF_zero. unfold SFltb.
  destruct (Prim2SF x) as [s|[|]| |[|] m e]; simpl; auto; discriminate.
Qed.

Lemma not_negative_ltb (x : float) :
  zero_or_above_or_nan (Prim2SF x) -> (x <? 0) = false.
Proof.
  rewrite FloatAxioms.ltb_spec, FloatArith.Prim2SF_zero. unfold SFltb.
  destruct (Prim2SF x) as [s|[|]| |[|] m e]; simpl; auto; contradiction.
Qed.

Lemma accepted_weight_spec (x : float) :
  (x <=? 0) = false -> above_zero_or_nan (Prim2SF x).
Proof.
  rewrite FloatAxioms.leb_spec, FloatArith.Prim2SF_zero. unfold SFleb.
  destruct (Prim2SF x) as [s|[|]| |[|] m e]; simpl; auto; discriminate.
Qed.

Lemma accepted_capacity_spec (x : float) :
  (x <? 0) = false -> (x =? 0) = false -> above_zero_or_nan (Prim2SF x).
Proof.
  rewrite FloatAxioms.ltb_spec, FloatAxioms.eqb_spec, FloatArith.Prim2SF_zero.
  unfold SFltb, SFeqb.
  destruct (Prim2SF x) as [s|[|]| |[|] m e]; simpl; auto; discriminate.
Qed.

(** [0.0 + w] is [w], unless [w] is the negative zero. *)
Lemma add_zero_l (w : float) : above_zero_or_nan (Prim2SF w) -> 0 + w = w.
Proof.
  intros Hw. apply Prim2SF_inj.
  rewrite add_spec, FloatArith.Prim2SF_zero.
  destruct (Prim2SF w) as [s|[|]| |[|] m e]; simpl in *; auto; contradiction.
Qed.

End FloatSigns.

(** ** The life of an operation, and the inventory *)

Section Ingresos.

Context {V : Type}.

Lemma setitem_setitem (k : string) (v v0 : V) (d : dict V) :
  setitem k v (setitem k v0 d) = setitem k v d.
Proof.
  induction d as [|[k' v'] d IH]; simpl.
  - now rewrite String.eqb_refl.
  - destruct (String.eqb k' k) eqn:E; simpl; rewrite E; congruence.
Qed.

Lemma contains_In (k : string) (d : dict V) :
  contains k d = true <-> In k (map fst d).
Proof.
  unfold contains. rewrite existsb_exists. split.
  - intros [[k' v] [Hin Heq]]. apply String.eqb_eq in Heq. simpl in Heq.
    subst. now apply (in_map fst) in Hin.
  - intros Hin. apply in_map_iff in Hin as [[k' v] [Heq Hin]]. simpl in Heq.
    subst. exists (k, v). split; auto. apply String.eqb_refl.
Qed.

Lemma setitem_keys (k : string) (v : V) (d : dict V) :
  map fst (setitem k v d)
  = if contains k d then map fst d else (map fst d ++ [k])%list.
Proof.
  destruct (contains k d) eqn:E.
  - now apply setitem_present_keys.
  - rewrite (setitem_absent _ _ _ E), map_app. reflexivity.
Qed.

End Ingresos.

Section Almacen_extra.

(** What [registrar_ingreso] does, in one step: a finalized operation
    sets the entry of its type to the stock of that type plus its
    weight. *)
Lemma registrar_ingreso_run (op : OperacionTransporte) (self : AlmacenMineral) :
  registrar_ingreso op self
  = if finalizada op
    then (Return tt, inventario_set (tipo (carga op))
                       (stock (tipo (carga op)) self + peso (carga op)) self)
    else (Raise no_finalizada, self).
Proof.
  unfold registrar_ingreso, bind, when, get, lift, modify, ret, stock.
  destruct (finalizada op); simpl; [|reflexivity].
  destruct (contains (tipo (carga op)) (inventario self)) eqn:Hc; simpl.
  - destruct (getitem_present _ _ Hc) as [v [Hg Hl]]. now rewrite Hg, Hl.
  - rewrite getitem_setitem_same, (lookup_absent _ _ Hc).
    unfold inventario_set. simpl. now rewrite setitem_setitem.
Qed.

Lemma lookup_inventario_set (k : string) (v : float) (self : AlmacenMineral) :
  lookup k (inventario (inventario_set k v self)) = Some v.
Proof. unfold lookup. simpl. now rewrite getitem_setitem_same. Qed.

(** X4.  An operation as its constructor returns it is refused by every
    warehouse, with the [ValueError] of [registrar_ingreso] and no change
    of the inventory, and so it is after [validar_peso], whatever
    [validar_peso] said.  [finalizar] always returns, changes only
    [finalizada], and a second [finalizar] changes nothing.  After
    [finalizar] the operation is ingested, even when [validar_peso]
    raises on it: the warehouse looks at [finalizada] alone. *)
Theorem operation_lifecycle (o : Operador) (v : Vehiculo) (g : CargaMineral)
    (d : float) (c : Z) (self : AlmacenMineral) :
  exists op,
    OperacionTransporte_init o v g d c = (Return op, (c + 1)%Z) /\
    finalizada op = false /\
    registrar_ingreso op self = (Raise no_finalizada, self) /\
    registrar_ingreso (snd (validar_peso op)) self = (Raise no_finalizada, self) /\
    finalizar op = (Return tt, con_finalizada true op) /\
    finalizar (con_finalizada true op) = (Return tt, con_finalizada true op) /\
    (id_op (con_finalizada true op), operador (con_finalizada true op),
     vehiculo (con_finalizada true op), carga (con_finalizada true op),
     distancia (con_finalizada true op)) = (c, o, v, g, d) /\
    fst (validar_peso (con_finalizada true op)) = fst (validar_peso op) /\
    exists self',
      registrar_ingreso (con_finalizada true op) self = (Return tt, self') /\
      lookup (tipo g) (inventario self') = Some (stock (tipo g) self + peso g).
Proof.
  eexists. split; [reflexivity|]. simpl.
  repeat split.
  - unfold validar_peso, bind, get, when; simpl.
    destruct (gtb (peso g) (capacidad_tn v)); reflexivity.
  - unfold validar_peso, bind, get, when; simpl.
    destruct (gtb (peso g) (capacidad_tn v)); reflexivity.
  - eexists. rewrite registrar_ingreso_run. simpl. split; [reflexivity|].
    apply lookup_inventario_set.
Qed.

(** X5.  Nothing keeps an operation from being ingested twice: a second
    [registrar_ingreso] of the same finalized operation returns as the
    first did and adds the weight once more. *)
Theorem ingestion_twice_counts_twice (op : OperacionTransporte)
    (self : AlmacenMineral) :
  finalizada op = true ->
  exists self1 self2,
    registrar_ingreso op self = (Return tt, self1) /\
    registrar_ingreso op self1 = (Return tt, self2) /\
    lookup (tipo (carga op)) (inventario self1)
      = Some (stock (tipo (carga op)) self + peso (carga op)) /\
    lookup (tipo (carga op)) (inventario self2)
      = Some (stock (tipo (carga op)) self + peso (carga op) + peso (carga op)) /\
    tipos self2 = tipos self1.
Proof.
  intros Hf. do 2 eexists. rewrite !registrar_ingreso_run, Hf.
  split; [reflexivity|]. split; [reflexivity|].
  split; [apply lookup_inventario_set|]. split.
  - rewrite lookup_inventario_set. unfold stock at 1.
    now rewrite lookup_inventario_set.
  - unfold tipos. simpl. rewrite setitem_keys, contains_setitem. reflexivity.
Qed.

Lemma ingestion_twice_counts_twice_witness :
  exists self1 self2,
    registrar_ingreso (con_finalizada true Escenario.oper1) AlmacenMineral_init
      = (Return tt, self1) /\
    registrar_ingreso (con_finalizada true Escenario.oper1) self1
      = (Return tt, self2) /\
    lookup "Cobre" (inventario self2) = Some 30.
Proof.
  destruct (ingestion_twice_counts_twice (con_finalizada true Escenario.oper1)
              AlmacenMineral_init eq_refl)
    as [self1 [self2 [H1 [H2 [_ [H3 _]]]]]].
  exists self1, self2. repeat split; assumption.
Defined.

Lemma total_app (ns : list Z) (n : Z) :
  (total (ns ++ [n]) = total ns + n)%Z.
Proof. induction ns as [|a ns IH]; simpl; lia. Qed.

Lemma inventario_entero_app (pesos : list (string * Z)) (k : string) (n : Z) :
  (inventario_entero pesos ++ [(k, whole n)])%list
  = inventario_entero (pesos ++ [(k, n)]).
Proof. unfold inventario_entero. now rewrite map_app. Qed.

(** X6.  The first ingestion of a type: when the load of a finalized
    operation passed the validation of its weight and its type is not in
    the inventory, the type is added after the others with exactly the
    weight of the load.  By the [sum] that adds from left to right, the
    total stock then grows by that weight; by either [sum] it does when
    the stock and the weight are whole numbers of tonnes of a total
    below [2^53] (the compensated [sum] of other values can differ from
    the former total plus the weight in the last digit). *)
Theorem first_ingestion_of_a_type (op : OperacionTransporte)
    (self : AlmacenMineral) :
  finalizada op = true ->
  (peso (carga op) <=? 0) = false ->
  contains (tipo (carga op)) (inventario self) = false ->
  registrar_ingreso op self
  = (Return tt,
     {| inventario := (inventario self
                       ++ [(tipo (carga op), peso (carga op))])%list |}) /\
  calcular_stock_total left_to_right
    {| inventario := (inventario self
                      ++ [(tipo (carga op), peso (carga op))])%list |}
  = calcular_stock_total left_to_right self + peso (carga op) /\
  (forall alg (pesos : list (string * Z)) (n : Z),
     inventario self = inventario_entero pesos ->
     peso (carga op) = whole n ->
     Forall (fun kn => (0 <= snd kn)%Z) pesos -> (0 <= n)%Z ->
     (total (map snd pesos) + n < 2 ^ 53)%Z ->
     calcular_stock_total alg
       {| inventario := (inventario self
                         ++ [(tipo (carga op), peso (carga op))])%list |}
     = calcular_stock_total alg self + peso (carga op)).
Proof.
  intros Hf Hw Hc. rewrite registrar_ingreso_run, Hf.
  unfold stock. rewrite (lookup_absent _ _ Hc).
  rewrite (FloatSigns.add_zero_l _ (FloatSigns.accepted_weight_spec _ Hw)).
  unfold inventario_set. rewrite (setitem_absent _ _ _ Hc). split; [reflexivity|].
  split.
  - unfold calcular_stock_total, values. cbn [inventario].
    rewrite map_app. cbn [map snd].
    destruct (map snd (inventario self)) as [|x xs]; [reflexivity|].
    cbn [app sum]. now rewrite fold_left_app.
  - intros alg pesos n Hinv Hn Hp Hn0 Hb.
    pose proof (FloatSum.total_nonneg _ (Forall_snd _ Hp)) as Ht.
    destruct self as [inv]. cbn [inventario] in *. subst inv.
    rewrite Hn, inventario_entero_app.
    rewrite !stock_total_entero.
    + rewrite map_app. cbn [map snd]. rewrite total_app.
      symmetry. apply FloatSum.add_whole; assumption.
    + assumption.
    + lia.
    + apply Forall_app. split; [assumption|]. repeat constructor. exact Hn0.
    + rewrite map_app. cbn [map snd]. rewrite total_app. exact Hb.
Qed.

Lemma first_ingestion_of_a_type_witness :
  registrar_ingreso (con_finalizada true Escenario.oper2)
    {| inventario := [("Cobre", 15)] |}
  = (Return tt, {| inventario := [("Cobre", 15); ("Plata", 25)] |}) /\
  (forall alg,
     calcular_stock_total alg {| inventario := [("Cobre", 15); ("Plata", 25)] |}
     = calcular_stock_total alg {| inventario := [("Cobre", 15)] |} + 25).
Proof.
  pose proof (first_ingestion_of_a_type (con_finalizada true Escenario.oper2)
                {| inventario := [("Cobre", 15)] |}
                eq_refl eq_refl eq_refl) as [H1 [_ H3]].
  split; [exact H1|].
  intros alg.
  apply (H3 alg [("Cobre", 15%Z)] 25%Z);
    [reflexivity|reflexivity|repeat constructor; simpl; lia|lia|reflexivity].
Defined.

End Almacen_extra.

Section Inventario_keys.

Lemma registrar_ingreso_tipos (op : OperacionTransporte) (self : AlmacenMineral) :
  tipos (snd (registrar_ingreso op self))
  = if finalizada op && negb (contains (tipo (carga op)) (inventario self))
    then (tipos self ++ [tipo (carga op)])%list
    else tipos self.
Proof.
  rewrite registrar_ingreso_run. destruct (finalizada op); simpl; [|reflexivity].
  unfold tipos. simpl. rewrite setitem_keys.
  now destruct (contains _ _).
Qed.

Lemma intentar_ingresos_keys (ops : list OperacionTransporte)
    (self : AlmacenMineral) :
  NoDup (tipos self) ->
  NoDup (tipos (intentar_ingresos ops self)) /\
  (exists nuevos, tipos (intentar_ingresos ops self) = (tipos self ++ nuevos)%list) /\
  forall t, In t (tipos (intentar_ingresos ops self)) <->
            In t (tipos self) \/
            exists op, In op ops /\ finalizada op = true /\ tipo (carga op) = t.
Proof.
  revert self. induction ops as [|op ops IH]; intros self Hnd; simpl.
  - split; [assumption|]. split; [exists []; now rewrite app_nil_r|].
    intros t. split; [now left|]. intros [H|[op [[] _]]]. exact H.
  - pose proof (registrar_ingreso_tipos op self) as Hk.
    set (self1 := snd (registrar_ingreso op self)) in *.
    assert (Hnd1 : NoDup (tipos self1)).
    { rewrite Hk. destruct (finalizada op); simpl; auto.
      destruct (contains (tipo (carga op)) (inventario self)) eqn:Hc; simpl; auto.
      apply NoDup_app; auto.
      - repeat constructor. simpl. tauto.
      - intros x Hx [<-|[]]. apply contains_In in Hx. unfold tipos in Hc.
        congruence. }
    destruct (IH self1 Hnd1) as [H1 [[nuevos H2] H3]].
    split; [assumption|]. split.
    + rewrite H2, Hk. destruct (_ && _).
      * exists ([tipo (carga op)] ++ nuevos)%list. now rewrite app_assoc.
      * now exists nuevos.
    + intros t. rewrite H3, Hk. split.
      * intros [Hin|[op' [Hin [Hf Ht]]]].
        -- destruct (finalizada op) eqn:Hf; simpl in Hin; auto.
           destruct (contains (tipo (carga op)) (inventario self)); simpl in Hin;
             auto.
           apply in_app_or in Hin as [Hin|[<-|[]]]; auto.
           right. exists op. auto.
        -- right. exists op'. auto.
      * intros [Hin|[op' [[<-|Hin] [Hf Ht]]]].
        -- left. destruct (_ && _); auto. apply in_or_app. now left.
        -- left. rewrite Hf. simpl.
           destruct (contains (tipo (carga op)) (inventario self)) eqn:Hc; simpl.
           ++ subst t. now apply contains_In.
           ++ subst t. apply in_or_app. right. now left.
        -- right. exists op'. auto.
Qed.

(** X7.  Whatever operations a new warehouse is asked to ingest, and
    whether the caller catches the refusals or not, the types in its
    inventory are exactly the types of the finalized ones among them,
    each type once; an operation that is not finalized leaves no entry. *)
Theorem inventory_types_are_finalized_types (ops : list OperacionTransporte) :
  NoDup (tipos (intentar_ingresos ops AlmacenMineral_init)) /\
  forall t, In t (tipos (intentar_ingresos ops AlmacenMineral_init)) <->
            exists op, In op ops /\ finalizada op = true /\ tipo (carga op) = t.
Proof.
  destruct (intentar_ingresos_keys ops AlmacenMineral_init) as [H1 [_ H3]];
    [constructor|].
  split; [assumption|]. intros t. rewrite H3. simpl. tauto.
Qed.

(** X8.  Ingestions never remove or reorder the types of an inventory:
    after any attempts the types that were there come first, in their
    order, and the new ones follow. *)
Theorem inventory_types_only_grow (ops : list OperacionTransporte)
    (self : AlmacenMineral) :
  NoDup (tipos self) ->
  exists nuevos,
    tipos (intentar_ingresos ops self) = (tipos self ++ nuevos)%list /\
    NoDup (tipos self ++ nuevos) /\
    forall t, In t nuevos ->
              exists op, In op ops /\ finalizada op = true /\ tipo (carga op) = t.
Proof.
  intros Hnd.
  destruct (intentar_ingresos_keys ops self Hnd) as [H1 [[nuevos H2] H3]].
  exists nuevos. split; [assumption|]. rewrite <- H2. split; [assumption|].
  intros t Hin.
  assert (Hin' : In t (tipos (intentar_ingresos ops self))).
  { rewrite H2. apply in_or_app. now right. }
  apply H3 in Hin'. destruct Hin' as [Hold|Hnew]; [|assumption].
  exfalso. rewrite H2 in H1. apply NoDup_app_remove_l in H1 as H1'.
  revert Hold Hin. clear - H1. intros Hold Hin.
  induction (tipos self) as [|a l IH]; simpl in *; [contradiction|].
  inversion H1 as [|? ? Hnot Hrest]; subst.
  destruct Hold as [->|Hold]; [apply Hnot; apply in_or_app; now right|].
  now apply IH.
Qed.

Lemma inventory_types_only_grow_witness :
  exists nuevos,
    tipos (intentar_ingresos [Escenario.oper3; con_finalizada true Escenario.oper2]
                             {| inventario := [("Cobre", 15)] |})
    = (["Cobre"] ++ nuevos)%list.
Proof.
  destruct (inventory_types_only_grow
              [Escenario.oper3; con_finalizada true Escenario.oper2]
              {| inventario := [("Cobre", 15)] |})
    as [nuevos [H _]].
  - repeat constructor. simpl. tauto.
  - exists nuevos. exact H.
Defined.

End Inventario_keys.

(** ** More on the roster of an operator *)

Section Roster_extra.

Lemma asociar_vehiculos_fields (vs : list ref) (self : Operador) :
  let self' := snd (asociar_vehiculos vs self) in
  (forall v, In v (vehiculos_asociados self') <->
             In v (vehiculos_asociados self) \/ In v vs) /\
  clase_operador self' = clase_operador self /\
  nombre self' = nombre self /\
  (length (vehiculos_asociados self')
   <= length (vehiculos_asociados self) + length vs)%nat.
Proof.
  revert self. induction vs as [|v vs IH]; intros self; simpl.
  - repeat split; auto; try tauto. lia.
  - unfold bind. rewrite asociar_vehiculo_run. simpl.
    destruct (IH (if list_contains v (vehiculos_asociados self) then self
                  else append_vehiculo v self)) as [H1 [H2 [H3 H4]]].
    destruct (list_contains v (vehiculos_asociados self)) eqn:E.
    + apply list_contains_In in E. repeat split; auto; try lia.
      * intros H. apply H1 in H. tauto.
      * intros [H|[<-|H]]; apply H1; auto.
    + simpl in *. repeat split; auto.
      * intros H. apply H1 in H. rewrite in_app_iff in H. simpl in H. tauto.
      * intros H. apply H1. rewrite in_app_iff. simpl. tauto.
      * rewrite length_app in H4. simpl in H4. lia.
Qed.

(** X9.  The roster is a set kept in a list: after the association of
    the vehicles [vs] with a new operator it holds exactly the vehicles
    of [vs], and the association of the same vehicles in another order,
    or with repetitions elsewhere, gives the same roster up to the order.
    The class of the operator, and with it [calcular_bonos], is not
    touched. *)
Theorem roster_is_a_set (k : ClaseOperador) (nombre dni licencia : string)
    (vs vs' : list ref) :
  (forall v, In v vs <-> In v vs') ->
  let nuevo := Operador_init k nombre dni licencia in
  Permutation (vehiculos_asociados (snd (asociar_vehiculos vs nuevo)))
              (vehiculos_asociados (snd (asociar_vehiculos vs' nuevo))) /\
  (forall v, In v (vehiculos_asociados (snd (asociar_vehiculos vs nuevo)))
             <-> In v vs) /\
  calcular_bonos (snd (asociar_vehiculos vs nuevo)) = calcular_bonos nuevo.
Proof.
  intros Heq nuevo.
  destruct (asociar_vehiculos_fields vs nuevo) as [H1 [H2 _]].
  destruct (asociar_vehiculos_fields vs' nuevo) as [H1' _].
  assert (Hnd : NoDup (vehiculos_asociados nuevo)) by constructor.
  split; [|split].
  - apply NoDup_Permutation.
    + now apply asociar_vehiculos_NoDup.
    + now apply asociar_vehiculos_NoDup.
    + intros v. rewrite H1, H1', Heq. reflexivity.
  - intros v. rewrite H1. simpl. tauto.
  - unfold calcular_bonos. now rewrite H2.
Qed.

Lemma roster_is_a_set_witness :
  Permutation
    (vehiculos_asociados
       (snd (asociar_vehiculos [Escenario.ref_v1; Escenario.ref_v3]
                               Escenario.op1_nuevo)))
    (vehiculos_asociados
       (snd (asociar_vehiculos [Escenario.ref_v3; Escenario.ref_v1;
                                Escenario.ref_v3] Escenario.op1_nuevo))).
Proof.
  apply (roster_is_a_set OperadorCamion "Juan" "123" "AII"
           [Escenario.ref_v1; Escenario.ref_v3]
           [Escenario.ref_v3; Escenario.ref_v1; Escenario.ref_v3]).
  intros v. simpl. tauto.
Defined.

End Roster_extra.

(** ** The lines of registrar_operacion *)

Section Salida.

Lemma length_append (s t : string) :
  String.length (s ++ t) = (String.length s + String.length t)%nat.
Proof. induction s as [|a s IH]; simpl; congruence. Qed.

Lemma append_cancel_r (s s' t : string) :
  (s ++ t = s' ++ t)%string -> s = s'.
Proof.
  revert s'. induction s as [|a s IH]; intros s' H.
  - destruct s' as [|a' s']; [reflexivity|]. exfalso.
    apply (f_equal String.length) in H. simpl in H.
    rewrite length_append in H. lia.
  - destruct s' as [|a' s'].
    + exfalso. apply (f_equal String.length) in H. simpl in H.
      rewrite length_append in H. lia.
    + simpl in H. injection H as -> H. f_equal. now apply IH.
Qed.

Lemma append_cancel_l (t s s' : string) :
  (t ++ s = t ++ s')%string -> s = s'.
Proof.
  induction t as [|a t IH]; simpl; intros H; [assumption|].
  injection H as H. now apply IH.
Qed.

Lemma to_int_parses (n : Z) :
  NilZero.int_of_string (NilZero.string_of_int (Z.to_int n)) = Some (Z.to_int n).
Proof.
  apply NilZero.isi; destruct n as [|p|p]; simpl; try discriminate;
    intros [= E]; now apply (DecimalPos.Unsigned.to_uint_nonnil p).
Qed.

Lemma str_int_inj (n n' : Z) : str_int n = str_int n' -> n = n'.
Proof.
  unfold str_int. intros H. apply DecimalZ.to_int_inj.
  pose proof (to_int_parses n) as H1. rewrite H, to_int_parses in H1.
  now injection H1.
Qed.

Lemma registrar_operacion_run (self : Operador) (operacion : OperacionTransporte)
    (salida : string) :
  registrar_operacion self operacion salida
  = (Return tt,
     (salida ++
      (match clase_operador self with
       | OperadorCamion => "OperadorCamion registró la operación"
       | SupervisorTransporte => "Supervisor validó la operación"
       | ControladorAlmacen => "Controlador registró el ingreso de la operación"
       end ++ " " ++ str_int (id_op operacion) ++ newline))%string).
Proof.
  unfold registrar_operacion, print, modify.
  destruct (clase_operador self); reflexivity.
Qed.

Lemma newlines_append (s t : string) :
  newlines (s ++ t) = (newlines s + newlines t)%nat.
Proof. induction s as [|a s IH]; simpl; [reflexivity|]. rewrite IH. lia. Qed.

Lemma newlines_digits (d : Decimal.uint) :
  newlines (NilEmpty.string_of_uint d) = 0%nat.
Proof. induction d; simpl; assumption || reflexivity. Qed.

Lemma newlines_uint (d : Decimal.uint) :
  newlines (NilZero.string_of_uint d) = 0%nat.
Proof. destruct d; try reflexivity; apply (newlines_digits (_ d)). Qed.

(** [str(n)] is on one line. *)
Lemma newlines_str_int (n : Z) : newlines (str_int n) = 0%nat.
Proof.
  unfold str_int. destruct (Z.to_int n) as [d|d]; simpl; apply newlines_uint.
Qed.

(** X10.  [registrar_operacion] always returns and adds exactly one line
    to what has been written, leaving the rest in place: the text of the
    role of the operator ("OperadorCamion registró la operación",
    "Supervisor validó la operación" or "Controlador registró el ingreso
    de la operación"), a space, the identifier of the operation in
    decimal, and the newline that ends the line, the only newline
    written.  Hence the line tells the role and the identifier, and
    nothing else: two calls write the same line exactly when the
    operators have the same class and the operations the same
    identifier. *)
Theorem registrar_operacion_line (o o' : Operador)
    (op op' : OperacionTransporte) (salida : string) :
  let linea :=
    (match clase_operador o with
     | OperadorCamion => "OperadorCamion registró la operación"
     | SupervisorTransporte => "Supervisor validó la operación"
     | ControladorAlmacen => "Controlador registró el ingreso de la operación"
     end ++ " " ++ str_int (id_op op))%string in
  registrar_operacion o op salida
  = (Return tt, (salida ++ linea ++ newline)%string) /\
  newlines linea = 0%nat /\
  (snd (registrar_operacion o op salida) = snd (registrar_operacion o' op' salida)
   <-> clase_operador o = clase_operador o' /\ id_op op = id_op op').
Proof.
  intros linea. rewrite !registrar_operacion_run. split; [|split].
  - unfold linea. destruct (clase_operador o); reflexivity.
  - unfold linea. rewrite !newlines_append, newlines_str_int.
    destruct (clase_operador o); reflexivity.
  - simpl. split.
    + intros H. apply append_cancel_l in H.
      destruct (clase_operador o), (clase_operador o'); simpl in H;
        try discriminate H; split; try reflexivity;
        apply str_int_inj;
        apply (append_cancel_r _ _ newline);
        [ apply (append_cancel_l "OperadorCamion registró la operación ")
        | apply (append_cancel_l "Supervisor validó la operación ")
        | apply (append_cancel_l "Controlador registró el ingreso de la operación ") ];
        exact H.
    + intros [-> ->]. reflexivity.
Qed.

End Salida.

(** ** More on floats: what rounding keeps *)

Module FloatRound.

Import FloatSigns.

Lemma binary_round_aux_nonneg (m e : Z) (l : location) :
  zero_or_above_or_nan (binary_round_aux prec emax false m e l).
Proof.
  unfold binary_round_aux.
  destruct (shr_fexp prec emax m e l) as [r1 e1].
  destruct (shr_fexp prec emax _ e1 loc_Exact) as [r2 e2].
  destruct (shr_m r2); cbn; auto.
  match goal with |- context [if ?b then _ else _] => destruct b end; cbn; auto.
Qed.

Lemma of_uint63_nonneg (u : PrimInt63.int) :
  zero_or_above_or_nan (Prim2SF (of_uint63 u)).
Proof.
  rewrite of_uint63_spec.
  pose proof (Uint63.to_Z_bounded u) as [Hlo _].
  destruct (Uint63.to_Z u) as [|p|p] eqn:E.
  - exact I.
  - unfold binary_normalize, binary_round.
    destruct (shl_align _ _ _) as [mz ez]. apply binary_round_aux_nonneg.
  - lia.
Qed.

Lemma SFdiv_nonneg (x y : spec_float) :
  zero_or_above_or_nan x -> above_zero y -> zero_or_above_or_nan (SF64div x y).
Proof.
  destruct x as [sx|[|]| |[|] mx ex], y as [sy|[|]| |[|] my ey]; simpl;
    try contradiction; auto.
  intros _ _.
  destruct (SFdiv_core_binary prec emax (Zpos mx) ex (Zpos my) ey) as [[mz ez] lz].
  apply binary_round_aux_nonneg.
Qed.

(** [round(x, 3)] of a number that is not negative is not negative. *)
Lemma round3_not_negative (x : float) :
  (x <? 0) = false -> (round3 x <? 0) = false.
Proof.
  intros Hx. pose proof (not_negative_spec x Hx) as Hs. unfold round3.
  destruct (Prim2SF x) as [s|s| |s m e] eqn:E; try assumption.
  destruct (8796093022208 <=? abs x); [assumption|].
  destruct s; [contradiction|].
  apply not_negative_ltb. rewrite div_spec.
  apply SFdiv_nonneg; [apply of_uint63_nonneg|exact I].
Qed.

(** The quotient of two numbers that are accepted as a weight and as a
    capacity other than zero is no negative number. *)
Lemma SFdiv_accepted (x y : spec_float) :
  above_zero_or_nan x -> above_zero_or_nan y ->
  not_negative_finite (SF64div x y).
Proof.
  destruct x as [sx|[|]| |[|] mx ex], y as [sy|[|]| |[|] my ey]; simpl;
    try contradiction; auto.
  intros _ _.
  destruct (SFdiv_core_binary prec emax (Zpos mx) ex (Zpos my) ey) as [[mz ez] lz].
  now apply FloatArith.binary_round_aux_sign.
Qed.

Lemma fraction_denominator_accepted (w c : float) :
  (w <=? 0) = false -> (c <? 0) = false -> (c =? 0) = false ->
  (1 + min (w / c) 1 =? 0) = false.
Proof.
  intros Hw Hc Hz. unfold min. destruct (1 <? w / c).
  - reflexivity.
  - apply FloatArith.one_plus_not_zero. rewrite div_spec.
    apply SFdiv_accepted;
      [now apply accepted_weight_spec|now apply accepted_capacity_spec].
Qed.

End FloatRound.

(** ** More on calcular_rendimiento and generar_reporte *)

Section Rendimiento_extra.

(** X11.  The yield of a light truck is never negative: whenever the
    capacity is not zero, [calcular_rendimiento] returns, for every
    distance and weight (negative ones, infinities and nans too), a
    number that is not [< 0]. *)
Theorem ligero_yield_never_negative (v : Vehiculo) (t : string)
    (distancia peso : float) :
  clase v = CamionLigero t ->
  (capacidad_tn v =? 0) = false ->
  exists r, calcular_rendimiento v distancia peso = Return r /\ (r <? 0) = false.
Proof.
  intros Hk Hc. unfold calcular_rendimiento. rewrite Hk.
  rewrite (truediv_nonzero _ _ Hc). cbn [obind].
  eexists. split; [reflexivity|].
  apply FloatRound.round3_not_negative.
  match goal with |- context [if ?b then _ else _] => destruct b eqn:E end;
    [reflexivity|exact E].
Qed.

Lemma ligero_yield_never_negative_witness :
  exists r, calcular_rendimiento Escenario.v3 8 6 = Return r /\ (r <? 0) = false.
Proof.
  apply (ligero_yield_never_negative Escenario.v3 "Hidráulica" 8 6);
    reflexivity.
Defined.

(** A vehicle and a load that their constructors could have returned:
    the yield is computed unless the capacity is zero. *)
Lemma calcular_rendimiento_returns (v : Vehiculo) (distancia w : float) :
  (capacidad_tn v <? 0) = false -> (capacidad_tn v =? 0) = false ->
  (w <=? 0) = false ->
  exists r, calcular_rendimiento v distancia w = Return r.
Proof.
  intros Hc Hz Hw. unfold calcular_rendimiento.
  destruct (clase v); rewrite (truediv_nonzero _ _ Hz); cbn [obind];
    try (eexists; reflexivity).
  rewrite (truediv_nonzero _ _
             (FloatRound.fraction_denominator_accepted _ _ Hw Hc Hz)).
  eexists. reflexivity.
Qed.

(** X12.  [generar_reporte] does not look at [finalizada].  On an
    operation whose vehicle and load passed the validations of their
    constructors it raises [ZeroDivisionError] when the capacity of the
    vehicle is zero, and otherwise returns the report: the identifier of
    the operation, that of the vehicle, the weight of the load and the
    yield of the vehicle over the distance with that weight. *)
Theorem generar_reporte_spec (self : OperacionTransporte) :
  (capacidad_tn (vehiculo self) <? 0) = false ->
  (peso (carga self) <=? 0) = false ->
  (forall b, generar_reporte (con_finalizada b self) = generar_reporte self) /\
  ((capacidad_tn (vehiculo self) =? 0) = true ->
     generar_reporte self = Raise ZeroDivisionError) /\
  ((capacidad_tn (vehiculo self) =? 0) = false ->
     exists r,
       calcular_rendimiento (vehiculo self) (distancia self) (peso (carga self))
         = Return r /\
       generar_reporte self
         = Return {| r_operacion := id_op self;
                     r_vehiculo := id_vehiculo (vehiculo self);
                     r_peso := peso (carga self);
                     r_rendimiento := r |}).
Proof.
  intros Hc Hw. split; [reflexivity|]. split.
  - intros Hz. unfold generar_reporte, calcular_rendimiento.
    destruct (clase (vehiculo self)); rewrite (truediv_zero _ _ Hz); reflexivity.
  - intros Hz.
    destruct (calcular_rendimiento_returns (vehiculo self) (distancia self)
                (peso (carga self)) Hc Hz Hw) as [r Hr].
    exists r. split; [assumption|]. unfold generar_reporte. now rewrite Hr.
Qed.

Lemma generar_reporte_spec_witness :
  generar_reporte Escenario.oper1
  = Return {| r_operacion := 1; r_vehiculo := "T001"; r_peso := 15;
              r_rendimiento := 5.829 |}.
Proof.
  destruct (proj2 (proj2 (generar_reporte_spec Escenario.oper1 eq_refl eq_refl))
              eq_refl) as [r [Hr H]].
  rewrite H. injection Hr as <-. reflexivity.
Defined.

End Rendimiento_extra.

(** ** More on floats: the sums that are zero *)

Module FloatMinusOne.

Section MinusOne.

#[local] Open Scope Z_scope.

Lemma canonical_exponent (m : positive) (e : Z) :
  bounded prec emax m e = true ->
  e = Z.max (Zpos (digits2_pos m) + e - 53) (-1074).
Proof.
  unfold bounded, canonical_mantissa. intros H.
  apply andb_true_iff in H as [H _]. apply Z.eqb_eq in H.
  unfold fexp, SpecFloat.emin, prec, emax in H. lia.
Qed.

Lemma pow2_digits (m : positive) (j : Z) :
  0 <= j -> Zpos m = 2 ^ j -> Zpos (digits2_pos m) = j + 1.
Proof.
  intros Hj Hm. pose proof (FloatArith.digits2_pos_bounds m) as [Hlo Hhi].
  rewrite Hm in Hlo, Hhi.
  apply Z.pow_le_mono_r_iff in Hlo; try lia.
  apply Z.pow_lt_mono_r_iff in Hhi; lia.
Qed.

(** The only finite float [m * 2^e] worth one is [2^52 * 2^-52]. *)
Lemma canonical_one (m : positive) (e : Z) :
  bounded prec emax m e = true ->
  2 ^ 52 * 2 ^ (-52 - Z.min (-52) e) = Zpos m * 2 ^ (e - Z.min (-52) e) ->
  m = 4503599627370496%positive /\ e = -52.
Proof.
  intros Hb Hv. pose proof (canonical_exponent m e Hb) as He.
  assert (Hm : Zpos m = 2 ^ (- e) /\ e <= 0).
  { destruct (Z.le_gt_cases e (-52)) as [Hle|Hgt].
    - rewrite Z.min_r in Hv by lia.
      replace (e - e) with 0 in Hv by lia. rewrite Z.pow_0_r, Z.mul_1_r in Hv.
      rewrite <- Z.pow_add_r in Hv by lia. split; [|lia].
      rewrite <- Hv. f_equal. lia.
    - rewrite Z.min_l in Hv by lia.
      replace (-52 - -52) with 0 in Hv by lia. rewrite Z.pow_0_r, Z.mul_1_r in Hv.
      assert (He0 : e <= 0).
      { destruct (Z.le_gt_cases e 0) as [|Hpos]; [assumption|exfalso].
        assert (2 ^ 53 <= 2 ^ (e - -52)) by (apply Z.pow_le_mono_r; lia).
        assert (1 <= Zpos m) by lia.
        assert (2 ^ 52 < 2 ^ 53) by (apply Z.pow_lt_mono_r; lia).
        nia. }
      split; [|assumption].
      apply (Z.mul_cancel_r _ _ (2 ^ (e - -52))).
      + pose proof (Z.pow_pos_nonneg 2 (e - -52)). lia.
      + rewrite <- Hv, <- Z.pow_add_r by lia. f_equal. lia. }
  destruct Hm as [Hm He0].
  pose proof (pow2_digits m (- e) ltac:(lia) Hm) as Hd.
  rewrite Hd in He.
  assert (e = -52) by lia. subst e. split; [|reflexivity].
  change (- -52) with 52 in Hm. apply Pos2Z.inj. rewrite Hm. reflexivity.
Qed.

End MinusOne.

Section Sum.

Lemma SFeqb_zero_true (x : spec_float) (s : bool) :
  SFeqb x (S754_zero s) = true -> exists s', x = S754_zero s'.
Proof.
  unfold SFeqb. destruct x as [sx|[|]| |[|] m e]; simpl; try discriminate.
  intros _. now exists sx.
Qed.

Lemma one_plus_zero_iff (f : float) : (1 + f =? 0) = true <-> f = (-1)%float.
Proof.
  split; [|intros ->; reflexivity].
  intros H. pose proof H as H0.
  rewrite FloatAxioms.eqb_spec, add_spec, FloatArith.Prim2SF_zero,
    FloatArith.Prim2SF_one in H.
  apply SFeqb_zero_true in H as [s' H].
  pose proof (Prim2SF_valid f) as Hv.
  destruct (Prim2SF f) as [s|s| |s m e] eqn:E;
    try (cbn in H; discriminate H).
  destruct s.
  - simpl in Hv. pose proof (canonical_exponent m e Hv) as He.
    unfold SF64add, SFadd, cond_Zopp in H.
    set (ez := Z.min (-52) e) in *.
    assert (Hez1 : (ez <= -52)%Z) by (unfold ez; lia).
    assert (Hez2 : (ez <= e)%Z) by (unfold ez; lia).
    assert (Hez3 : (-1074 <= ez)%Z) by (unfold ez; lia).
    pose proof (FloatArith.shl_align_value 4503599627370496 (-52) ez Hez1)
      as [Ha _].
    pose proof (FloatArith.shl_align_value m e ez Hez2) as [Hb _].
    destruct (shl_align 4503599627370496 (-52) ez) as [a ea].
    destruct (shl_align m e ez) as [b eb]. cbn [fst snd] in *.
    destruct (Zpos a + - Zpos b)%Z as [|p|p] eqn:Ez.
    * assert (Hab : (Zpos a = Zpos b)%Z) by lia.
      rewrite Ha, Hb in Hab.
      change 4503599627370496%Z with (2 ^ 52)%Z in Hab.
      destruct (canonical_one m e Hv Hab) as [-> ->].
      apply Prim2SF_inj. rewrite E. reflexivity.
    * exfalso. unfold binary_normalize in H.
      apply (FloatArith.binary_round_not_zero false s' p ez); [|exact H].
      exists 0%Z. repeat split; lia.
    * exfalso. unfold binary_normalize in H.
      apply (FloatArith.binary_round_not_zero true s' p ez); [|exact H].
      exists 0%Z. repeat split; lia.
  - rewrite FloatArith.one_plus_not_zero in H0; [discriminate|].
    now rewrite E.
Qed.

End Sum.

End FloatMinusOne.

Section Tolva_extra.

Lemma min_minus_one (q : float) : min q 1 = (-1)%float <-> q = (-1)%float.
Proof.
  unfold min. split.
  - destruct (1 <? q); [|auto]. intros H.
    apply (f_equal (fun x => x <? 0)) in H. vm_compute in H. discriminate H.
  - intros ->. reflexivity.
Qed.

(** X13.  [calcular_rendimiento] of a tipper raises nothing but
    [ZeroDivisionError], and raises it in two cases only: when the
    capacity is zero, and when the weight divided by the capacity is
    [-1], which makes [1 + carga_frac] zero though the capacity is not.
    In every other case it returns the rounded formula. *)
Theorem tolva_raises_iff (v : Vehiculo) (resistencia_chasis distancia peso : float) :
  clase v = CamionTolva resistencia_chasis ->
  (calcular_rendimiento v distancia peso = Raise ZeroDivisionError <->
   (capacidad_tn v =? 0) = true \/ peso / capacidad_tn v = (-1)%float) /\
  (forall e, calcular_rendimiento v distancia peso = Raise e ->
             e = ZeroDivisionError) /\
  ((capacidad_tn v =? 0) = false -> peso / capacidad_tn v <> (-1)%float ->
   calcular_rendimiento v distancia peso
   = Return (Spec.tipperYield (capacidad_tn v) resistencia_chasis distancia peso)).
Proof.
  intros Hk.
  assert (Hrun : calcular_rendimiento v distancia peso
                 = if capacidad_tn v =? 0 then Raise ZeroDivisionError
                   else if 1 + min (peso / capacidad_tn v) 1 =? 0
                        then Raise ZeroDivisionError
                        else Return (Spec.tipperYield (capacidad_tn v)
                                       resistencia_chasis distancia peso)).
  { unfold calcular_rendimiento, truediv. rewrite Hk.
    destruct (capacidad_tn v =? 0); [reflexivity|]. cbn [obind].
    destruct (1 + min (peso / capacidad_tn v) 1 =? 0); reflexivity. }
  rewrite Hrun. clear Hrun.
  destruct (capacidad_tn v =? 0) eqn:Hz.
  - repeat split; auto; try congruence.
  - destruct (1 + min (peso / capacidad_tn v) 1 =? 0) eqn:Hd.
    + apply (proj1 (FloatMinusOne.one_plus_zero_iff _)) in Hd.
      apply (proj1 (min_minus_one _)) in Hd.
      repeat split; auto; try congruence.
    + assert (Hq : peso / capacidad_tn v <> (-1)%float).
      { intros Hq. apply (proj2 (min_minus_one _)) in Hq.
        apply (proj2 (FloatMinusOne.one_plus_zero_iff _)) in Hq. congruence. }
      repeat split; try discriminate.
      intros [H|H]; [discriminate|contradiction].
Qed.

Lemma tolva_raises_iff_witness :
  calcular_rendimiento Escenario.v1 12 (-20) = Raise ZeroDivisionError /\
  calcular_rendimiento Escenario.v1 12 (-15) = Return 40.8.
Proof.
  split.
  - apply (proj1 (tolva_raises_iff Escenario.v1 85 12 (-20) eq_refl)).
    right. reflexivity.
  - rewrite (proj2 (proj2 (tolva_raises_iff Escenario.v1 85 12 (-15) eq_refl))
               eq_refl).
    + reflexivity.
    + intros H. apply (f_equal (fun x => x <? -0.8)) in H. vm_compute in H.
      discriminate H.
Defined.

End Tolva_extra.

(** ** More on floats: quotients of one and more *)

Module FloatClamp.

Section Magnitude.

#[local] Open Scope Z_scope.

Lemma at_least_pos (K m e : Z) : magnitude_at_least K m e -> 0 < m.
Proof.
  intros [k [Hk [Hm _]]]. pose proof (Z.pow_pos_nonneg 2 k). lia.
Qed.

Lemma at_least_le (K m m' e : Z) :
  magnitude_at_least K m e -> m <= m' -> magnitude_at_least K m' e.
Proof. intros [k [Hk [Hm He]]] Hle. exists k. repeat split; lia. Qed.

Lemma shr_fexp_at_least (K m e : Z) (l : location) :
  -1074 <= K ->
  magnitude_at_least K m e ->
  magnitude_at_least K (shr_m (fst (shr_fexp prec emax m e l)))
                     (snd (shr_fexp prec emax m e l)).
Proof.
  intros HK Hok. pose proof (at_least_pos _ _ _ Hok) as Hpos.
  destruct Hok as [k [Hk [Hm He]]].
  destruct m as [|p|p]; try lia.
  unfold shr_fexp, shr. simpl Zdigits2.
  pose proof (FloatArith.digits2_pos_bounds p) as [Hlo Hhi].
  set (d := Zpos (digits2_pos p)) in *.
  assert (Hkd : k < d).
  { apply (Z.pow_lt_mono_r_iff 2); lia. }
  unfold fexp, SpecFloat.emin, prec, emax.
  destruct (Z.max (d + e - 53) (3 - 1024 - 53) - e) as [|n|n] eqn:En;
    simpl fst; simpl snd.
  - rewrite FloatArith.shr_record_of_loc_m. exists k. repeat split; lia.
  - rewrite FloatArith.iter_shr_1_m
      by (rewrite FloatArith.shr_record_of_loc_m; lia).
    rewrite FloatArith.shr_record_of_loc_m.
    exists (d - 1 - Zpos n). repeat split; try lia.
    apply Z.div_le_lower_bound; [lia|].
    rewrite <- Z.pow_add_r by lia.
    replace (Zpos n + (d - 1 - Zpos n)) with (d - 1) by lia. exact Hlo.
  - rewrite FloatArith.shr_record_of_loc_m. exists k. repeat split; lia.
Qed.

(** Rounding a number of at least [2^K] gives an infinity or a finite
    float of at least [2^K]. *)
Lemma binary_round_aux_at_least (K m e : Z) (l : location) :
  -1074 <= K ->
  magnitude_at_least K m e ->
  binary_round_aux prec emax false m e l = S754_infinity false \/
  exists m' e', binary_round_aux prec emax false m e l = S754_finite false m' e' /\
                magnitude_at_least K (Zpos m') e'.
Proof.
  intros HK Hok. unfold binary_round_aux.
  pose proof (shr_fexp_at_least K m e l HK Hok) as H1.
  destruct (shr_fexp prec emax m e l) as [r1 e1]. simpl in H1.
  apply at_least_le with (m' := round_nearest_even (shr_m r1) (loc_of_shr_record r1))
    in H1; [|apply FloatArith.round_nearest_even_ge].
  pose proof (shr_fexp_at_least K _ _ loc_Exact HK H1) as H2.
  destruct (shr_fexp prec emax _ e1 loc_Exact) as [r2 e2]. simpl in H2.
  pose proof (at_least_pos _ _ _ H2) as Hpos.
  destruct (shr_m r2) as [|p|p]; try lia.
  destruct (e2 <=? emax - prec); [right|left; reflexivity].
  exists p, e2. split; [reflexivity|assumption].
Qed.

Lemma canonical_digits (m : positive) (e : Z) :
  bounded prec emax m e = true ->
  Zpos (digits2_pos m) <= 53 /\ -1074 <= e /\
  (-1074 < e -> Zpos (digits2_pos m) = 53).
Proof.
  intros Hb. pose proof (FloatMinusOne.canonical_exponent m e Hb). lia.
Qed.

(** One is at most every finite float of at least [2^0]. *)
Lemma one_le_finite (m : positive) (e : Z) :
  bounded prec emax m e = true ->
  magnitude_at_least 0 (Zpos m) e ->
  SFleb (S754_finite false 4503599627370496 (-52)) (S754_finite false m e) = true.
Proof.
  intros Hb [k [Hk [Hm He]]].
  destruct (canonical_digits m e Hb) as [Hd _].
  pose proof (FloatArith.digits2_pos_bounds m) as [_ Hhi].
  assert (Hk53 : k < 53).
  { apply (Z.pow_lt_mono_r_iff 2); try lia.
    apply Z.lt_le_trans with (2 ^ Zpos (digits2_pos m)); [lia|].
    apply Z.pow_le_mono_r; lia. }
  unfold SFleb, SFcompare.
  destruct (Z.compare_spec (-52) e) as [<-|Hlt|Hgt]; try reflexivity; [|lia].
  rewrite Pos.compare_cont_spec. simpl.
  assert (H52 : 2 ^ 52 <= Zpos m).
  { apply Z.le_trans with (2 ^ k); [|assumption]. apply Z.pow_le_mono_r; lia. }
  change (2 ^ 52) with (Zpos 4503599627370496) in H52.
  destruct (Pos.compare_spec 4503599627370496 m) as [Heq|Hlt'|Hgt'];
    try reflexivity.
  exfalso. apply Pos2Z.pos_lt_pos in Hgt'. clear - Hgt' H52. lia.
Qed.

Lemma shifted_mantissa (m s : Z) :
  0 <= s ->
  match s with
  | Zpos _ => Z.shiftl m s
  | 0 => m
  | Zneg _ => 0
  end = m * 2 ^ s.
Proof.
  intros Hs. destruct s as [|p|p]; try lia.
  apply Z.shiftl_mul_pow2. lia.
Qed.

(** The quotient of [m1 * 2^e1] by a smaller [m2 * 2^e2], as the division
    prepares it for rounding, is at least [2^0]. *)
Lemma div_core_at_least (m1 m2 : positive) (e1 e2 : Z) :
  bounded prec emax m1 e1 = true ->
  bounded prec emax m2 e2 = true ->
  SFleb (S754_finite false m2 e2) (S754_finite false m1 e1) = true ->
  let '(q, e', _) := SFdiv_core_binary prec emax (Zpos m1) e1 (Zpos m2) e2 in
  magnitude_at_least 0 q e'.
Proof.
  intros Hb1 Hb2 Hle.
  destruct (canonical_digits m1 e1 Hb1) as [Hd1 [He1 Hn1]].
  destruct (canonical_digits m2 e2 Hb2) as [Hd2 [He2 Hn2]].
  pose proof (FloatArith.digits2_pos_bounds m1) as [Hlo1 Hhi1].
  pose proof (FloatArith.digits2_pos_bounds m2) as [Hlo2 Hhi2].
  assert (Hd1pos : 0 < Zpos (digits2_pos m1)) by lia.
  assert (Hd2pos : 0 < Zpos (digits2_pos m2)) by lia.
  set (d1 := Zpos (digits2_pos m1)) in *.
  set (d2 := Zpos (digits2_pos m2)) in *.
  assert (Hord : e2 <= e1 /\ Zpos m2 <= Zpos m1 * 2 ^ (e1 - e2)).
  { unfold SFleb, SFcompare in Hle.
    destruct (Z.compare_spec e2 e1) as [Heq|Hlt|Hgt]; try discriminate.
    - rewrite Pos.compare_cont_spec in Hle. simpl in Hle.
      split; [lia|]. replace (e1 - e2) with 0 by lia.
      change (2 ^ 0) with 1.
      destruct (Pos.compare_spec m2 m1) as [E|E|E]; try discriminate;
        clear - E; lia.
    - split; [lia|]. rewrite (Hn1 ltac:(lia)) in Hlo1.
      assert (2 ^ d2 <= 2 ^ 53) by (apply Z.pow_le_mono_r; lia).
      assert (2 ^ 1 <= 2 ^ (e1 - e2)) by (apply Z.pow_le_mono_r; lia).
      change (2 ^ (53 - 1)) with 4503599627370496 in Hlo1.
      change (2 ^ 53) with 9007199254740992 in *. change (2 ^ 1) with 2 in *.
      nia. }
  destruct Hord as [He Hm].
  unfold SFdiv_core_binary. simpl Zdigits2. fold d1 d2.
  set (e' := Z.min (fexp prec emax (d1 + e1 - (d2 + e2))) (e1 - e2)).
  assert (Hs : 0 <= e1 - e2 - e') by (unfold e'; lia).
  set (s := e1 - e2 - e') in *.
  rewrite (shifted_mantissa (Zpos m1) s Hs).
  pose proof (Z.div_eucl_eq (Zpos m1 * 2 ^ s) (Zpos m2) ltac:(lia)) as Hdiv.
  pose proof (Z.mod_pos_bound (Zpos m1 * 2 ^ s) (Zpos m2) ltac:(lia)) as Hmod.
  unfold Z.modulo in Hmod.
  assert (Hq : fst (Z.div_eucl (Zpos m1 * 2 ^ s) (Zpos m2))
               = Zpos m1 * 2 ^ s / Zpos m2) by reflexivity.
  destruct (Z.div_eucl (Zpos m1 * 2 ^ s) (Zpos m2)) as [q r].
  cbn [fst] in Hq. subst q.
  destruct (Z.le_gt_cases e' 0) as [Hneg|Hpos].
  - exists (- e'). repeat split; try lia.
    apply Z.div_le_lower_bound; [lia|].
    replace s with ((e1 - e2) + - e') by (unfold s; lia).
    rewrite Z.pow_add_r, Z.mul_assoc by lia.
    apply Z.mul_le_mono_nonneg_r; [|exact Hm]. apply Z.pow_nonneg. lia.
  - exists 0. repeat split; try lia. rewrite Z.pow_0_r.
    apply Z.div_le_lower_bound; [lia|].
    assert (Hfexp : e' <= d1 + e1 - (d2 + e2) - 53).
    { unfold e', fexp, SpecFloat.emin, prec, emax in *. lia. }
    assert (Hs' : 53 - d1 + d2 <= s) by (unfold s; lia).
    assert (H1 : 2 ^ (53 - d1 + d2) <= 2 ^ s) by (apply Z.pow_le_mono_r; lia).
    assert (H2 : 2 ^ (d1 - 1) * 2 ^ (53 - d1 + d2) = 2 ^ (52 + d2)).
    { rewrite <- Z.pow_add_r by lia. f_equal. lia. }
    assert (H3 : 2 ^ d2 <= 2 ^ (52 + d2)) by (apply Z.pow_le_mono_r; lia).
    pose proof (Z.pow_pos_nonneg 2 (53 - d1 + d2) ltac:(lia) ltac:(lia)).
    nia.
Qed.

End Magnitude.

Section Quotient.

Lemma Prim2SF_infinity : Prim2SF infinity = S754_infinity false.
Proof. reflexivity. Qed.

(** A positive finite float, as [0 <? c] and [c <? infinity] say. *)
Lemma positive_finite_spec (c : float) :
  (0 <? c) = true -> (c <? infinity) = true ->
  exists m e, Prim2SF c = S754_finite false m e /\ bounded prec emax m e = true.
Proof.
  intros H0 Hinf. pose proof (Prim2SF_valid c) as Hv.
  rewrite FloatAxioms.ltb_spec, FloatArith.Prim2SF_zero in H0.
  rewrite FloatAxioms.ltb_spec, Prim2SF_infinity in Hinf.
  unfold SFltb in *.
  destruct (Prim2SF c) as [s|[|]| |[|] m e]; simpl in *; try discriminate.
  now exists m, e.
Qed.

(** The float quotient of a number by a smaller positive one is at
    least one. *)
Lemma div_ge_one (w c : float) :
  (0 <? c) = true -> (c <? infinity) = true -> (c <=? w) = true ->
  (1 <=? w / c) = true.
Proof.
  intros H0 Hinf Hle.
  destruct (positive_finite_spec c H0 Hinf) as [m2 [e2 [EC Hb2]]].
  pose proof (Prim2SF_valid w) as Hvw.
  pose proof (Prim2SF_valid (w / c)) as Hvq.
  rewrite FloatAxioms.leb_spec, EC in Hle.
  rewrite FloatAxioms.leb_spec, FloatArith.Prim2SF_one.
  rewrite div_spec, EC in *.
  destruct (Prim2SF w) as [s|[|]| |[|] m1 e1]; try discriminate Hle.
  - reflexivity.
  - simpl in Hvw. unfold SF64div, SFdiv in *.
    pose proof (div_core_at_least m1 m2 e1 e2 Hvw Hb2 Hle) as Hmag.
    destruct (SFdiv_core_binary prec emax (Zpos m1) e1 (Zpos m2) e2)
      as [[mz ez] lz].
    cbn [xorb] in *.
    destruct (binary_round_aux_at_least 0 mz ez lz ltac:(lia) Hmag)
      as [Hr|[m' [e' [Hr Hm']]]]; rewrite Hr in *.
    + reflexivity.
    + now apply one_le_finite.
Qed.

Lemma eqb_one (q : float) : (1 =? q) = true -> q = 1.
Proof.
  rewrite FloatAxioms.eqb_spec, FloatArith.Prim2SF_one. unfold SFeqb, SFcompare.
  intros H. apply Prim2SF_inj. rewrite FloatArith.Prim2SF_one.
  destruct (Prim2SF q) as [s|[|]| |[|] m e]; try discriminate H.
  destruct (Z.compare_spec (-52) e) as [He|He|He]; try discriminate H.
  rewrite Pos.compare_cont_spec in H. simpl in H.
  destruct (Pos.compare_spec 4503599627370496 m) as [Hm|Hm|Hm];
    try discriminate H.
  now subst.
Qed.

(** A load fraction of one or more is cut to exactly one. *)
Lemma min_ge_one (q : float) : (1 <=? q) = true -> min q 1 = 1.
Proof.
  intros H. unfold min.
  destruct (FloatOrder.compare_cases 1 q) as [Hlt _ _ _ _ _|_ _ Heq _ _ _
                                             |_ _ _ _ Hle _|_ _ _ _ Hle _ _];
    try congruence.
  - now rewrite Hlt.
  - apply eqb_one in Heq. subst q. reflexivity.
Qed.

Lemma leb_refl (c : float) : (0 <? c) = true -> (c <=? c) = true.
Proof.
  intros H. apply FloatArith.ltb_zero_spec in H.
  rewrite FloatAxioms.leb_spec. unfold SFleb.
  rewrite FloatOrder.SFcompare_refl; [reflexivity|].
  intros E. now rewrite E in H.
Qed.

End Quotient.

End FloatClamp.

Section Clamp.

(** X14.  The load fraction is cut at one.  On a vehicle of any class
    with a positive finite capacity, a weight at or above the capacity
    (an infinite one too) has load fraction exactly [1], and the yield is
    the yield at full load: beyond the capacity [calcular_rendimiento]
    does not depend on the weight. *)
Theorem yield_clamped_at_full_load (v : Vehiculo) (distancia peso : float) :
  (0 <? capacidad_tn v) = true ->
  (capacidad_tn v <? infinity) = true ->
  (capacidad_tn v <=? peso) = true ->
  min (peso / capacidad_tn v) 1 = 1 /\
  calcular_rendimiento v distancia peso
  = calcular_rendimiento v distancia (capacidad_tn v) /\
  exists r, calcular_rendimiento v distancia peso = Return r.
Proof.
  intros H0 Hinf Hle.
  pose proof (FloatClamp.min_ge_one _ (FloatClamp.div_ge_one _ _ H0 Hinf Hle))
    as Hw.
  pose proof (FloatClamp.min_ge_one _
                (FloatClamp.div_ge_one _ _ H0 Hinf (FloatClamp.leb_refl _ H0)))
    as Hc.
  pose proof (positive_not_zero _ H0) as Hz.
  split; [assumption|].
  unfold calcular_rendimiento.
  destruct (clase v); rewrite !(truediv_nonzero _ _ Hz); cbn [obind];
    rewrite Hw, Hc; split; try reflexivity; eexists; reflexivity.
Qed.

Lemma yield_clamped_at_full_load_witness :
  calcular_rendimiento Escenario.v3 8 6 = calcular_rendimiento Escenario.v3 8 5 /\
  calcular_rendimiento Escenario.v1 12 infinity
  = calcular_rendimiento Escenario.v1 12 20.
Proof.
  split.
  - apply (yield_clamped_at_full_load Escenario.v3 8 6); reflexivity.
  - apply (yield_clamped_at_full_load Escenario.v1 12 infinity); reflexivity.
Defined.

End Clamp.

(** ** More on floats: sums and products of numbers that are not negative *)

Module FloatProducts.

Import FloatSigns.

Lemma SFmul_nonneg (x y : spec_float) :
  zero_or_above_or_nan x -> zero_or_above_or_nan y ->
  zero_or_above_or_nan (SF64mul x y).
Proof.
  destruct x as [sx|[|]| |[|] mx ex], y as [sy|[|]| |[|] my ey]; simpl;
    try contradiction; auto.
  intros _ _. apply FloatRound.binary_round_aux_nonneg.
Qed.

Lemma mul_not_negative (x y : float) :
  (x <? 0) = false -> (y <? 0) = false -> (x * y <? 0) = false.
Proof.
  intros Hx Hy. apply not_negative_ltb. rewrite mul_spec.
  apply SFmul_nonneg; now apply not_negative_spec.
Qed.

Lemma one_plus_nonneg (f : float) :
  zero_or_above_or_nan (Prim2SF f) -> zero_or_above_or_nan (Prim2SF (1 + f)).
Proof.
  intros Hf. rewrite add_spec, FloatArith.Prim2SF_one.
  destruct (Prim2SF f) as [s|[|]| |[|] m e]; try contradiction; try exact I.
  unfold SF64add, SFadd, cond_Zopp.
  destruct (shl_align 4503599627370496 (-52) _) as [a ea].
  destruct (shl_align m e _) as [b eb]. cbn [fst snd].
  change (Zpos a + Zpos b)%Z with (Zpos (a + b)).
  unfold binary_normalize, binary_round.
  destruct (shl_align (a + b) _ _) as [mz ez].
  apply FloatRound.binary_round_aux_nonneg.
Qed.

(** The quotient of a number that is not negative by one that is neither
    negative nor zero is not negative. *)
Lemma div_not_negative (x y : float) :
  (x <? 0) = false -> (y <? 0) = false -> (y =? 0) = false ->
  (x / y <? 0) = false.
Proof.
  intros Hx Hy Hz. apply not_negative_ltb. rewrite div_spec.
  apply not_negative_spec in Hx.
  pose proof (accepted_capacity_spec y Hy Hz) as Hy'.
  destruct (Prim2SF y) as [sy|[|]| |[|] my ey]; try contradiction.
  - now destruct (Prim2SF x) as [sx|[|]| |[|] mx ex].
  - now destruct (Prim2SF x) as [sx|[|]| |[|] mx ex].
  - now apply FloatRound.SFdiv_nonneg.
Qed.

End FloatProducts.

Section Tolva_sign.

(** X15.  The yield of a tipper is never negative when its inputs are
    not: with a positive capacity, a weight of zero or more, and a
    distance and a chassis resistance that are not negative,
    [calcular_rendimiento] returns a number that is not [< 0]. *)
Theorem tolva_yield_not_negative (v : Vehiculo)
    (resistencia_chasis distancia peso : float) :
  clase v = CamionTolva resistencia_chasis ->
  (0 <? capacidad_tn v) = true ->
  (0 <=? peso) = true ->
  (distancia <? 0) = false ->
  (resistencia_chasis <? 0) = false ->
  exists r, calcular_rendimiento v distancia peso = Return r /\ (r <? 0) = false.
Proof.
  intros Hk Hc Hw Hd Hr. unfold calcular_rendimiento. rewrite Hk.
  pose proof (positive_not_zero _ Hc) as Hz.
  pose proof (FloatArith.fraction_denominator _ _ Hw Hc) as Hden.
  rewrite (truediv_nonzero _ _ Hz). cbn [obind]. unfold min at 1.
  rewrite (truediv_nonzero _ _ Hden). cbn [obind].
  rewrite truediv_nonzero by reflexivity. cbn [obind].
  eexists. split; [reflexivity|].
  assert (Hq : (peso / capacidad_tn v <? 0) = false).
  { apply FloatProducts.div_not_negative; auto.
    - now apply nonneg_not_negative.
    - destruct (FloatOrder.compare_cases 0 (capacidad_tn v)); congruence. }
  assert (Hf : ((if 1 <? peso / capacidad_tn v then 1 else peso / capacidad_tn v)
                <? 0) = false).
  { destruct (1 <? peso / capacidad_tn v); [reflexivity|assumption]. }
  assert (Hs : (1 + (if 1 <? peso / capacidad_tn v then 1
                     else peso / capacidad_tn v) <? 0) = false).
  { apply FloatSigns.not_negative_ltb, FloatProducts.one_plus_nonneg.
    now apply FloatSigns.not_negative_spec. }
  apply FloatRound.round3_not_negative.
  repeat apply FloatProducts.mul_not_negative; auto.
  - apply FloatProducts.div_not_negative; auto.
  - apply FloatProducts.div_not_negative; auto.
Qed.

Lemma tolva_yield_not_negative_witness :
  exists r, calcular_rendimiento Escenario.v1 12 15 = Return r /\ (r <? 0) = false.
Proof.
  apply (tolva_yield_not_negative Escenario.v1 85 12 15); reflexivity.
Defined.

End Tolva_sign.

(** ** More on floats: the order is transitive *)

Module FloatTrans.

Ltac split_comparisons :=
  repeat match goal with
         | H : context [Pos.compare_cont Eq ?a ?b] |- _ =>
             rewrite (Pos.compare_cont_spec a b Eq) in H; simpl in H
         | |- context [Pos.compare_cont Eq ?a ?b] =>
             rewrite (Pos.compare_cont_spec a b Eq); simpl
         end;
  repeat match goal with
         | H : context [Z.compare ?a ?b] |- _ => destruct (Z.compare_spec a b)
         | |- context [Z.compare ?a ?b] => destruct (Z.compare_spec a b)
         | H : context [Pos.compare ?a ?b] |- _ => destruct (Pos.compare_spec a b)
         | |- context [Pos.compare ?a ?b] => destruct (Pos.compare_spec a b)
         end;
  simpl in *; try discriminate; try reflexivity; try lia.

Lemma SFltb_leb_trans (x y z : spec_float) :
  SFltb x y = true -> SFleb y z = true -> SFltb x z = true.
Proof.
  unfold SFltb, SFleb, SFcompare.
  destruct x as [sx|[|]| |[|] mx ex], y as [sy|[|]| |[|] my ey],
           z as [sz|[|]| |[|] mz ez];
    simpl; try discriminate; try reflexivity; intros H1 H2; split_comparisons.
Qed.

Lemma SFleb_ltb_trans (x y z : spec_float) :
  SFleb x y = true -> SFltb y z = true -> SFltb x z = true.
Proof.
  unfold SFltb, SFleb, SFcompare.
  destruct x as [sx|[|]| |[|] mx ex], y as [sy|[|]| |[|] my ey],
           z as [sz|[|]| |[|] mz ez];
    simpl; try discriminate; try reflexivity; intros H1 H2; split_comparisons.
Qed.

Lemma ltb_leb_trans (x y z : float) :
  (x <? y) = true -> (y <=? z) = true -> (x <? z) = true.
Proof.
  rewrite !FloatAxioms.ltb_spec, FloatAxioms.leb_spec. apply SFltb_leb_trans.
Qed.

Lemma leb_ltb_trans (x y z : float) :
  (x <=? y) = true -> (y <? z) = true -> (x <? z) = true.
Proof.
  rewrite !FloatAxioms.ltb_spec, FloatAxioms.leb_spec. apply SFleb_ltb_trans.
Qed.

End FloatTrans.

Section ValidarPeso_extra.

(** X16.  [validar_peso] is monotone.  An operation that passes still
    passes with a load that is no heavier and a vehicle whose capacity
    is no smaller; an operation that is refused is still refused with a
    load that is no lighter and a capacity that is no larger. *)
Theorem validar_peso_monotone (op op' : OperacionTransporte) :
  (peso (carga op') <=? peso (carga op)) = true ->
  (capacidad_tn (vehiculo op) <=? capacidad_tn (vehiculo op')) = true ->
  (validar_peso op = (Return tt, op) -> validar_peso op' = (Return tt, op')) /\
  (validar_peso op' = (Raise peso_excede, op') ->
   validar_peso op = (Raise peso_excede, op)).
Proof.
  intros Hw Hc.
  assert (Hrun : forall o, validar_peso o
                 = if gtb (peso (carga o)) (capacidad_tn (vehiculo o))
                   then (Raise peso_excede, o) else (Return tt, o)).
  { intros o. unfold validar_peso, bind, get, when.
    destruct (gtb _ _); reflexivity. }
  rewrite !Hrun. unfold gtb.
  destruct (capacidad_tn (vehiculo op') <? peso (carga op')) eqn:E'.
  - pose proof (FloatTrans.leb_ltb_trans _ _ _ Hc E') as H1.
    pose proof (FloatTrans.ltb_leb_trans _ _ _ H1 Hw) as H2.
    rewrite H2. split; [discriminate|reflexivity].
  - split; [reflexivity|discriminate].
Qed.

Lemma validar_peso_monotone_witness :
  validar_peso (con_vehiculo Escenario.v2 Escenario.oper1)
  = (Return tt, con_vehiculo Escenario.v2 Escenario.oper1).
Proof.
  apply (proj1 (validar_peso_monotone Escenario.oper1
                  (con_vehiculo Escenario.v2 Escenario.oper1) eq_refl eq_refl)).
  reflexivity.
Defined.

End ValidarPeso_extra.
